(** * rc_structures: ring buffer and fifo buffer

    A shallow embedding of [ring_buf.h] and [fifo_buf.h].  Both headers keep
    a heap block [d] of [size] elements together with a few [int] cursors in
    a struct which every function receives by pointer.  Here the struct is a
    record that is passed in and handed back, the heap block is a list and
    an [int] is an integer that arithmetic reduces to 32 bits.  A call that
    accesses a slot outside the block, dereferences NULL or divides by zero
    has no result: it returns [None]. *)

From Stdlib Require Import ZArith Lia.
From stdpp Require Import base option list.

Local Open Scope Z_scope.

(** ** The C layer: [int] arithmetic and heap blocks *)

Module C.

Definition int_min : Z := -2147483648.
Definition int_max : Z := 2147483647.

(** Two's complement reduction of a mathematical integer to an [int]:
    what the sum or difference of two [int]s is once it is stored in 32
    bits. *)
Definition wrap (z : Z) : Z := (z + 2147483648) mod 4294967296 - 2147483648.

Definition int_add (a b : Z) : Z := wrap (a + b).
Definition int_sub (a b : Z) : Z := wrap (a - b).

(** [a % b]: the remainder truncates toward zero and has no value for a
    zero divisor (nor for [INT_MIN % -1]). *)
Definition int_rem (a b : Z) : option Z :=
  if (b =? 0) || ((a =? int_min) && (b =? -1)) then None else Some (Z.rem a b).

Definition is_int (z : Z) : Prop := int_min <= z <= int_max.

Section Heap.
Context {T : Type}.
(** The value whose object representation is all zero bytes, which is
    what [calloc] and [memset(_,0,_)] leave in every slot. *)
Variable zero : T.

(** A pointer to a block is [None] (the NULL pointer) or the block. *)
Definition ptr : Type := option (list T).

Definition in_bounds (l : list T) (i : Z) : bool :=
  (0 <=? i) && (i <? Z.of_nat (length l)).

(** [p[i]] as an rvalue. *)
Definition load (p : ptr) (i : Z) : option T :=
  l ← p; if in_bounds l i then l !! Z.to_nat i else None.

(** [p[i] = v]. *)
Definition store (p : ptr) (i : Z) (v : T) : option (list T) :=
  l ← p; if in_bounds l i then Some (<[Z.to_nat i := v]> l) else None.

(** [&p[i]]: the address of a slot, kept as its offset in the block. *)
Definition slot_addr (p : ptr) (i : Z) : option Z :=
  l ← p; if in_bounds l i then Some i else None.

(** [calloc(n, sizeof(T))].  Whether the allocator can serve the request
    is not decided by the program: [served] is the allocator's answer. *)
Definition calloc (served : bool) (n : Z) : ptr :=
  if served then Some (replicate (Z.to_nat n) zero) else None.

(** [memset(p, 0, n*sizeof(T))]: the first [n] slots become zero. *)
Definition memset_zero (p : ptr) (n : Z) : option (list T) :=
  l ← p;
  if (0 <=? n) && (n <=? Z.of_nat (length l))
  then Some (replicate (Z.to_nat n) zero ++ drop (Z.to_nat n) l)
  else None.
End Heap.

End C.

(** ** ring_buf.h *)

Module RingBuf.
Import C.

Section WithType.
Context {T : Type}.
Variable zero : T.

(** [struct rc_ringbuf_t].  The functions below take the struct that
    [buf] points to; their [buf==NULL] guard has no counterpart. *)
Record rc_ringbuf_t : Type := mk_ringbuf {
  d : option (list T);   (* pointer to dynamically allocated data *)
  size : Z;              (* number of elements the buffer can hold *)
  index : Z;             (* index of the most recently added value *)
  initialized : Z        (* flag: memory has been allocated *)
}.

(** [RC_RINGBUF_INITIALIZER] *)
Definition rc_ringbuf_empty : rc_ringbuf_t :=
  {| d := None; size := 0; index := 0; initialized := 0 |}.

(** A call returns the [int] status ([0] or [-1]) and the struct as the
    call leaves it. *)
Definition rc_ringbuf_alloc (served : bool) (buf : rc_ringbuf_t) (size' : Z)
  : Z * rc_ringbuf_t :=
  if size' <? 2 then (-1, buf)
  else if negb (initialized buf =? 0) && (size buf =? size')
          && bool_decide (is_Some (d buf))
  then (0, buf)
  else
    match calloc zero served size' with
    | None => (-1, {| d := None; size := 0; index := 0; initialized := 0 |})
    | Some l => (0, {| d := Some l; size := size'; index := 0; initialized := 1 |})
    end.

(** [free(buf->d)] has no effect on the struct, which is then overwritten
    with the initializer: the block goes away with the field. *)
Definition rc_ringbuf_free (buf : rc_ringbuf_t) : Z * rc_ringbuf_t :=
  let new := rc_ringbuf_empty in
  (0, new).

Definition rc_ringbuf_reset (buf : rc_ringbuf_t) : option (Z * rc_ringbuf_t) :=
  if initialized buf =? 0 then Some (-1, buf)
  else
    l ← memset_zero zero (d buf) (size buf);
    Some (0, {| d := Some l; size := size buf; index := 0;
                initialized := initialized buf |}).

Definition rc_ringbuf_insert (buf : rc_ringbuf_t) (val : T)
  : option (Z * rc_ringbuf_t) :=
  if initialized buf =? 0 then Some (-1, buf)
  else
    let new_index := int_add (index buf) 1 in
    let new_index := if size buf <=? new_index then 0 else new_index in
    l ← store (d buf) new_index val;
    Some (0, {| d := Some l; size := size buf; index := new_index;
                initialized := initialized buf |}).

(** The second component is what the call writes to [*value]; a failing
    call writes nothing. *)
Definition rc_ringbuf_get_value (buf : rc_ringbuf_t) (position : Z)
  : option (Z * option T) :=
  if (position <? 0) || (int_sub (size buf) 1 <? position) then Some (-1, None)
  else if initialized buf =? 0 then Some (-1, None)
  else
    let return_index := int_sub (index buf) position in
    let return_index :=
      if return_index <? 0 then int_add return_index (size buf)
      else return_index in
    v ← load (d buf) return_index;
    Some (0, Some v).

(** As above, with the slot's address written to [*value_ptr]. *)
Definition rc_ringbuf_get_value_ptr (buf : rc_ringbuf_t) (position : Z)
  : option (Z * option Z) :=
  if (position <? 0) || (int_sub (size buf) 1 <? position) then Some (-1, None)
  else if initialized buf =? 0 then Some (-1, None)
  else
    let return_index := int_sub (index buf) position in
    let return_index :=
      if return_index <? 0 then int_add return_index (size buf)
      else return_index in
    a ← slot_addr (d buf) return_index;
    Some (0, Some a).

(** The loop of test_ring_buf.c: one insert per value, statuses dropped. *)
Fixpoint insert_all (buf : rc_ringbuf_t) (vals : list T) : option rc_ringbuf_t :=
  match vals with
  | [] => Some buf
  | v :: vals => rb ← rc_ringbuf_insert buf v; insert_all rb.2 vals
  end.

(** The representation invariant of an allocated buffer: the block has
    [size] slots, [size] is an [int] not below 2 and [index] is a slot. *)
Definition ringbuf_ok (buf : rc_ringbuf_t) : bool :=
  (initialized buf =? 0) ||
  match d buf with
  | Some l =>
      (Z.of_nat (length l) =? size buf) && (2 <=? size buf)
      && (size buf <=? int_max) && (0 <=? index buf) && (index buf <? size buf)
  | None => false
  end.

(** One call of the API, as a transition of the struct. *)
Inductive ringbuf_step : rc_ringbuf_t → rc_ringbuf_t → Prop :=
| rb_step_alloc served buf n :
    is_int n → ringbuf_step buf (rc_ringbuf_alloc served buf n).2
| rb_step_free buf :
    ringbuf_step buf (rc_ringbuf_free buf).2
| rb_step_reset buf r buf' :
    rc_ringbuf_reset buf = Some (r, buf') → ringbuf_step buf buf'
| rb_step_insert buf v r buf' :
    rc_ringbuf_insert buf v = Some (r, buf') → ringbuf_step buf buf'
| rb_step_get_value buf p r :
    is_int p → rc_ringbuf_get_value buf p = Some r → ringbuf_step buf buf
| rb_step_get_value_ptr buf p r :
    is_int p → rc_ringbuf_get_value_ptr buf p = Some r → ringbuf_step buf buf.

(** The structs a caller can hold after starting from the initializer. *)
Inductive ringbuf_reachable : rc_ringbuf_t → Prop :=
| rb_reach_empty : ringbuf_reachable rc_ringbuf_empty
| rb_reach_step buf buf' : ringbuf_reachable buf → ringbuf_step buf buf' → ringbuf_reachable buf'.

End WithType.

Arguments rc_ringbuf_t : clear implicits.
Arguments rc_ringbuf_empty {T}.

End RingBuf.

(** ** fifo_buf.h *)

Module FifoBuf.
Import C.

Section WithType.
Context {T : Type}.
Variable zero : T.

(** [struct rc_fifobuf_t], passed like the ring buffer's struct. *)
Record rc_fifobuf_t : Type := mk_fifobuf {
  d : option (list T);   (* pointer to dynamically allocated data *)
  size : Z;              (* number of elements the buffer can hold *)
  tail : Z;              (* index of the next value to be read *)
  available : Z;         (* number of entries waiting to be read *)
  initialized : Z        (* flag: memory has been allocated *)
}.

(** [RC_FIFOBUF_INITIALIZER] *)
Definition rc_fifobuf_empty : rc_fifobuf_t :=
  {| d := None; size := 0; tail := 0; available := 0; initialized := 0 |}.

Definition rc_fifobuf_alloc (served : bool) (buf : rc_fifobuf_t) (size' : Z)
  : Z * rc_fifobuf_t :=
  if size' <? 2 then (-1, buf)
  else if negb (initialized buf =? 0) && (size buf =? size')
          && bool_decide (is_Some (d buf))
  then (0, buf)
  else
    match calloc zero served size' with
    | None => (-1, {| d := None; size := 0; tail := 0; available := 0;
                      initialized := 0 |})
    | Some l => (0, {| d := Some l; size := size'; tail := 0; available := 0;
                       initialized := 1 |})
    end.

(** As in the ring buffer: the block goes away with the field. *)
Definition rc_fifobuf_free (buf : rc_fifobuf_t) : Z * rc_fifobuf_t :=
  let new := rc_fifobuf_empty in
  (0, new).

Definition rc_fifobuf_reset (buf : rc_fifobuf_t) : option (Z * rc_fifobuf_t) :=
  if initialized buf =? 0 then Some (-1, buf)
  else
    l ← memset_zero zero (d buf) (size buf);
    Some (0, {| d := Some l; size := size buf; tail := 0; available := 0;
                initialized := initialized buf |}).

Definition rc_fifobuf_available (buf : rc_fifobuf_t) : Z :=
  if initialized buf =? 0 then -1 else available buf.

Definition rc_fifobuf_push (buf : rc_fifobuf_t) (val : T)
  : option (Z * rc_fifobuf_t) :=
  if initialized buf =? 0 then Some (-1, buf)
  else if available buf =? size buf then Some (-1, buf)
  else
    new_index ← int_rem (int_add (tail buf) (available buf)) (size buf);
    l ← store (d buf) new_index val;
    Some (0, {| d := Some l; size := size buf; tail := tail buf;
                available := int_add (available buf) 1;
                initialized := initialized buf |}).

(** The second component of the status pair is what the call writes to
    [*value]; a failing call writes nothing. *)
Definition rc_fifobuf_pop (buf : rc_fifobuf_t)
  : option (Z * option T * rc_fifobuf_t) :=
  if initialized buf =? 0 then Some (-1, None, buf)
  else if available buf =? 0 then Some (-1, None, buf)
  else
    v ← load (d buf) (tail buf);
    tail' ← int_rem (int_add (tail buf) 1) (size buf);
    Some (0, Some v, {| d := d buf; size := size buf; tail := tail';
                        available := int_sub (available buf) 1;
                        initialized := initialized buf |}).

(** As above, with the slot's address written to [*value_ptr]. *)
Definition rc_fifobuf_pop_ptr (buf : rc_fifobuf_t)
  : option (Z * option Z * rc_fifobuf_t) :=
  if initialized buf =? 0 then Some (-1, None, buf)
  else if available buf =? 0 then Some (-1, None, buf)
  else
    a ← slot_addr (d buf) (tail buf);
    tail' ← int_rem (int_add (tail buf) 1) (size buf);
    Some (0, Some a, {| d := d buf; size := size buf; tail := tail';
                        available := int_sub (available buf) 1;
                        initialized := initialized buf |}).

(** The representation invariant of an allocated buffer: the block has
    [size] slots, [tail] is a slot and [available] counts at most [size]
    entries.  The last conjunct only restricts buffers of more than 2^30
    slots: the sum that [rc_fifobuf_push] forms has stayed within one
    step of [INT_MAX]. *)
Definition fifobuf_ok (buf : rc_fifobuf_t) : bool :=
  (initialized buf =? 0) ||
  match d buf with
  | Some l =>
      (Z.of_nat (length l) =? size buf) && (2 <=? size buf)
      && (size buf <=? int_max) && (0 <=? tail buf) && (tail buf <? size buf)
      && (0 <=? available buf) && (available buf <=? size buf)
      && (tail buf + available buf <=? int_max + 1)
  | None => false
  end.

(** One call of the API, as a transition of the struct. *)
Inductive fifobuf_step : rc_fifobuf_t → rc_fifobuf_t → Prop :=
| fb_step_alloc served buf n :
    is_int n → fifobuf_step buf (rc_fifobuf_alloc served buf n).2
| fb_step_free buf :
    fifobuf_step buf (rc_fifobuf_free buf).2
| fb_step_reset buf r buf' :
    rc_fifobuf_reset buf = Some (r, buf') → fifobuf_step buf buf'
| fb_step_available buf :
    fifobuf_step buf buf
| fb_step_push buf v r buf' :
    rc_fifobuf_push buf v = Some (r, buf') → fifobuf_step buf buf'
| fb_step_pop buf r buf' :
    rc_fifobuf_pop buf = Some (r, buf') → fifobuf_step buf buf'
| fb_step_pop_ptr buf r buf' :
    rc_fifobuf_pop_ptr buf = Some (r, buf') → fifobuf_step buf buf'.

Inductive fifobuf_reachable : rc_fifobuf_t → Prop :=
| fb_reach_empty : fifobuf_reachable rc_fifobuf_empty
| fb_reach_step buf buf' : fifobuf_reachable buf → fifobuf_step buf buf' → fifobuf_reachable buf'.

(** The producer loop of the fifo test: one push per value, statuses
    dropped. *)
Fixpoint push_all (buf : rc_fifobuf_t) (vals : list T) : option rc_fifobuf_t :=
  match vals with
  | [] => Some buf
  | v :: vals => rb ← rc_fifobuf_push buf v; push_all rb.2 vals
  end.

(** The consumer loop of the fifo test: [n] pops in a row.  The values the
    pops write are collected in the order of the calls; a pop that
    returns -1 writes none. *)
Fixpoint pop_n (n : nat) (buf : rc_fifobuf_t) : option (list T * rc_fifobuf_t) :=
  match n with
  | O => Some ([], buf)
  | S n =>
      r ← rc_fifobuf_pop buf;
      rest ← pop_n n r.2;
      Some (match r.1.2 with Some v => v :: rest.1 | None => rest.1 end, rest.2)
  end.

(** The [n] slots of a block of [sz] slots from slot [start] on, going
    round: the unread entries of a buffer are
    [window l size tail available]. *)
Fixpoint window (l : list T) (sz start : Z) (n : nat) : list T :=
  match n with
  | O => []
  | S n =>
      match l !! Z.to_nat (start mod sz) with
      | Some v => v :: window l sz (start + 1) n
      | None => []
      end
  end.

End WithType.

Arguments rc_fifobuf_t : clear implicits.
Arguments rc_fifobuf_empty {T}.

End FifoBuf.

(** ** Sample buffers of [int]

    The states the two test programs pass through, used to run the
    statements below on concrete data. *)

Module Samples.

(** test_ring_buf.c with SIZE 3, after 1,2,3,4 went into a fresh buffer. *)
Definition ring_1234 : RingBuf.rc_ringbuf_t Z :=
  {| RingBuf.d := Some [3; 4; 2]; RingBuf.size := 3; RingBuf.index := 1;
     RingBuf.initialized := 1 |}.

(** A fifo of 3 slots holding 2 and 3, with slot 0 already read. *)
Definition fifo_23 : FifoBuf.rc_fifobuf_t Z :=
  {| FifoBuf.d := Some [1; 2; 3]; FifoBuf.size := 3; FifoBuf.tail := 1;
     FifoBuf.available := 2; FifoBuf.initialized := 1 |}.

(** A full fifo of 3 slots. *)
Definition fifo_full : FifoBuf.rc_fifobuf_t Z :=
  {| FifoBuf.d := Some [1; 2; 3]; FifoBuf.size := 3; FifoBuf.tail := 0;
     FifoBuf.available := 3; FifoBuf.initialized := 1 |}.

(** A drained fifo of 3 slots. *)
Definition fifo_drained : FifoBuf.rc_fifobuf_t Z :=
  {| FifoBuf.d := Some [1; 2; 3]; FifoBuf.size := 3; FifoBuf.tail := 0;
     FifoBuf.available := 0; FifoBuf.initialized := 1 |}.

(** A fifo of 2^30 + 1 slots, of which 2^30 are unread from slot 2^30 on. *)
Definition fifo_huge : FifoBuf.rc_fifobuf_t Z :=
  {| FifoBuf.d := Some (replicate (Z.to_nat 1073741825) 0);
     FifoBuf.size := 1073741825; FifoBuf.tail := 1073741824;
     FifoBuf.available := 1073741824; FifoBuf.initialized := 1 |}.

End Samples.

(** * Proofs *)

(** ** Facts about the C layer *)

Section CFacts.
Import C.
Context {T : Type}.
Implicit Types (l : list T) (i n : Z).

Lemma wrap_small z : int_min <= z <= int_max → wrap z = z.
Proof.
  unfold int_min, int_max, wrap. intros Hz.
  rewrite Z.mod_small; lia.
Qed.

Lemma int_add_small a b : int_min <= a + b <= int_max → int_add a b = a + b.
Proof. apply wrap_small. Qed.

Lemma int_sub_small a b : int_min <= a - b <= int_max → int_sub a b = a - b.
Proof. apply wrap_small. Qed.

Lemma int_rem_nonneg a b : 0 <= a → 0 < b → int_rem a b = Some (a mod b).
Proof.
  intros Ha Hb. unfold int_rem.
  destruct (Z.eqb_spec b 0) as [->|_]; [lia|].
  destruct (Z.eqb_spec b (-1)) as [->|_]; [lia|].
  rewrite andb_false_r. simpl. f_equal. apply Z.rem_mod_nonneg; lia.
Qed.

Lemma in_bounds_true l i : 0 <= i < Z.of_nat (length l) → in_bounds l i = true.
Proof.
  intros [H0 H1]. unfold in_bounds.
  apply andb_true_intro. split; [apply Z.leb_le | apply Z.ltb_lt]; lia.
Qed.

Lemma in_bounds_inv l i : in_bounds l i = true → 0 <= i < Z.of_nat (length l).
Proof.
  unfold in_bounds. intros [H0 H1]%andb_prop.
  apply Z.leb_le in H0. apply Z.ltb_lt in H1. lia.
Qed.

Lemma lookup_in_bounds l i :
  0 <= i < Z.of_nat (length l) → ∃ v, l !! Z.to_nat i = Some v.
Proof.
  intros Hi. destruct (lookup_lt_is_Some_2 l (Z.to_nat i)) as [v Hv]; [lia|eauto].
Qed.

Lemma load_in_bounds l i v :
  0 <= i < Z.of_nat (length l) → l !! Z.to_nat i = Some v → load (Some l) i = Some v.
Proof. intros Hi Hv. unfold load. simpl. by rewrite in_bounds_true. Qed.

Lemma store_in_bounds l i v :
  0 <= i < Z.of_nat (length l) → store (Some l) i v = Some (<[Z.to_nat i := v]> l).
Proof. intros Hi. unfold store. simpl. by rewrite in_bounds_true. Qed.

Lemma memset_zero_all (zero : T) l n :
  Z.of_nat (length l) = n →
  memset_zero zero (Some l) n = Some (replicate (Z.to_nat n) zero).
Proof.
  intros <-. unfold memset_zero. simpl.
  rewrite (proj2 (Z.leb_le 0 _)) by lia. rewrite Z.leb_refl. simpl.
  rewrite Nat2Z.id, drop_all. by rewrite app_nil_r.
Qed.

End CFacts.

(** ** The ring buffer *)

Section RingFacts.
Import C RingBuf.
Context {T : Type}.
Variable zero : T.
Implicit Types (b : rc_ringbuf_t T) (l : list T) (v : T).

(** What the invariant says of an allocated buffer. *)
Lemma ringbuf_ok_allocated b :
  ringbuf_ok b = true → initialized b ≠ 0 →
  ∃ l, d b = Some l ∧ Z.of_nat (length l) = size b
       ∧ 2 <= size b <= int_max ∧ 0 <= index b < size b.
Proof.
  unfold ringbuf_ok. intros Hok Hinit.
  destruct (Z.eqb_spec (initialized b) 0) as [|_]; [done|]. simpl in Hok.
  destruct (d b) as [l|]; [|done]. exists l. split; [done|].
  repeat (apply andb_prop in Hok as [Hok ?]).
  rewrite ?Z.eqb_eq, ?Z.leb_le, ?Z.ltb_lt in *. lia.
Qed.

Lemma ringbuf_ok_intro b l :
  d b = Some l → Z.of_nat (length l) = size b →
  2 <= size b <= int_max → 0 <= index b < size b → ringbuf_ok b = true.
Proof.
  intros Hd Hlen Hsz Hidx. unfold ringbuf_ok. rewrite Hd.
  apply orb_true_intro. right.
  repeat (apply andb_true_intro; split);
    rewrite ?Z.eqb_eq, ?Z.leb_le, ?Z.ltb_lt; lia.
Qed.

(** The cursor after an insert, as the code computes it. *)
Lemma next_index_mod idx sz :
  0 <= idx < sz → sz <= int_max →
  (if sz <=? int_add idx 1 then 0 else int_add idx 1) = (idx + 1) mod sz.
Proof.
  intros Hidx Hsz. rewrite int_add_small by (unfold int_min, int_max in *; lia).
  destruct (Z.leb_spec sz (idx + 1)).
  - replace (idx + 1) with sz by lia. by rewrite Z.mod_same by lia.
  - by rewrite Z.mod_small by lia.
Qed.

(** The slot a lookback reads, as the code computes it. *)
Lemma return_index_mod idx pos sz :
  0 <= idx < sz → 0 <= pos < sz → sz <= int_max →
  (if int_sub idx pos <? 0 then int_add (int_sub idx pos) sz else int_sub idx pos)
  = (idx - pos) mod sz.
Proof.
  intros Hidx Hpos Hsz. rewrite int_sub_small by (unfold int_min, int_max in *; lia).
  destruct (Z.ltb_spec (idx - pos) 0).
  - rewrite int_add_small by (unfold int_min, int_max in *; lia).
    rewrite <- (Z.mod_small (idx - pos + sz) sz) at 1 by lia.
    by rewrite <- (Z.mod_add (idx - pos) 1 sz), Z.mul_1_l by lia.
  - by rewrite Z.mod_small by lia.
Qed.

Lemma insert_allocated b v l :
  d b = Some l → Z.of_nat (length l) = size b → size b <= int_max →
  0 <= index b < size b → initialized b ≠ 0 →
  rc_ringbuf_insert b v =
    Some (0, {| d := Some (<[Z.to_nat ((index b + 1) mod size b) := v]> l);
                size := size b; index := (index b + 1) mod size b;
                initialized := initialized b |}).
Proof.
  intros Hd Hlen Hsz Hidx Hinit. unfold rc_ringbuf_insert.
  destruct (Z.eqb_spec (initialized b) 0) as [|_]; [done|].
  rewrite next_index_mod by done. rewrite Hd.
  rewrite store_in_bounds; [done|].
  pose proof (Z.mod_pos_bound (index b + 1) (size b)). lia.
Qed.

Lemma get_value_allocated b pos l :
  d b = Some l → Z.of_nat (length l) = size b → size b <= int_max →
  0 <= index b < size b → initialized b ≠ 0 → 0 <= pos < size b →
  ∃ v, l !! Z.to_nat ((index b - pos) mod size b) = Some v
       ∧ rc_ringbuf_get_value b pos = Some (0, Some v).
Proof.
  intros Hd Hlen Hsz Hidx Hinit Hpos.
  pose proof (Z.mod_pos_bound (index b - pos) (size b)) as Hm.
  destruct (lookup_in_bounds l ((index b - pos) mod size b)) as [v Hv]; [lia|].
  exists v. split; [done|]. unfold rc_ringbuf_get_value.
  rewrite int_sub_small by (unfold int_min, int_max in *; lia).
  destruct (Z.ltb_spec pos 0); [lia|].
  destruct (Z.ltb_spec (size b - 1) pos); [lia|]. simpl.
  destruct (Z.eqb_spec (initialized b) 0) as [|_]; [done|].
  rewrite return_index_mod by (done || lia). rewrite Hd.
  rewrite (load_in_bounds l _ v) by (done || lia). done.
Qed.

Lemma get_value_out_of_range b pos :
  ringbuf_ok b = true → initialized b = 0 ∨ pos < 0 ∨ size b - 1 < pos →
  rc_ringbuf_get_value b pos = Some (-1, None).
Proof.
  intros Hok Hfail. unfold rc_ringbuf_get_value.
  destruct (Z.eqb_spec (initialized b) 0) as [|Hinit].
  { by destruct (_ || _). }
  destruct (ringbuf_ok_allocated b Hok Hinit) as (l & _ & _ & Hsz & _).
  rewrite int_sub_small by (unfold int_min, int_max in *; lia).
  destruct Hfail as [|[|]]; [done| |].
  - by rewrite (proj2 (Z.ltb_lt pos 0)).
  - rewrite (proj2 (Z.ltb_lt (size b - 1) pos)) by done. by rewrite orb_true_r.
Qed.

(** An insert writes the slot after the cursor and nothing else, so every
    retained value is found one step further back. *)
Lemma insert_shift b v :
  ringbuf_ok b = true → initialized b ≠ 0 →
  ∃ b', rc_ringbuf_insert b v = Some (0, b')
        ∧ ringbuf_ok b' = true ∧ initialized b' ≠ 0 ∧ size b' = size b
        ∧ rc_ringbuf_get_value b' 0 = Some (0, Some v)
        ∧ ∀ p, 0 <= p <= size b - 2 →
               rc_ringbuf_get_value b' (p + 1) = rc_ringbuf_get_value b p.
Proof.
  intros Hok Hinit.
  destruct (ringbuf_ok_allocated b Hok Hinit) as (l & Hd & Hlen & Hsz & Hidx).
  pose proof (Z.mod_pos_bound (index b + 1) (size b)) as Hm.
  eexists. split; [by apply insert_allocated with (l := l); try lia|].
  set (b' := mk_ringbuf _ _ _ _).
  assert (Hlen' : Z.of_nat (length (<[Z.to_nat ((index b + 1) mod size b) := v]> l))
                  = size b') by (by rewrite length_insert).
  split; [eapply ringbuf_ok_intro; simpl; eauto; lia|].
  split; [done|]. split; [done|]. split.
  - destruct (get_value_allocated b' 0 _ eq_refl Hlen') as (w & Hw & ->);
      simpl; try lia; try done.
    simpl in Hw. rewrite Z.sub_0_r, Z.mod_mod in Hw by lia.
    rewrite list_lookup_insert_eq in Hw by lia. by injection Hw as ->.
  - intros p Hp.
    destruct (get_value_allocated b' (p + 1) _ eq_refl Hlen') as (w & Hw & ->);
      simpl; try lia; try done.
    destruct (get_value_allocated b p l Hd Hlen) as (w' & Hw' & ->);
      try lia; try done.
    simpl in Hw. rewrite Zminus_mod_idemp_l in Hw.
    replace (index b + 1 - (p + 1)) with (index b - p) in Hw by lia.
    rewrite list_lookup_insert_ne in Hw; [congruence|].
    intros Heq%Z2Nat.inj; try (apply Z.mod_pos_bound; lia).
    assert (Hz : ((index b + 1) - (index b - p)) mod size b = 0).
    { rewrite Zminus_mod, Heq, Z.sub_diag. apply Z.mod_0_l. lia. }
    replace (index b + 1 - (index b - p)) with (p + 1) in Hz by lia.
    rewrite Z.mod_small in Hz; lia.
Qed.

Lemma insert_all_get vals : ∀ b,
  ringbuf_ok b = true → initialized b ≠ 0 →
  ∃ b', insert_all b vals = Some b'
        ∧ ringbuf_ok b' = true ∧ initialized b' ≠ 0 ∧ size b' = size b
        ∧ ∀ p, 0 <= p < size b →
            rc_ringbuf_get_value b' p =
              if p <? Z.of_nat (length vals)
              then Some (0, vals !! (length vals - 1 - Z.to_nat p)%nat)
              else rc_ringbuf_get_value b (p - Z.of_nat (length vals)).
Proof.
  induction vals as [|v vals IH]; intros b Hok Hinit.
  - exists b. repeat (split; [done|]). intros p Hp.
    change (Z.of_nat (length (@nil T))) with 0.
    destruct (Z.ltb_spec p 0); [lia|]. by rewrite Z.sub_0_r.
  - destruct (insert_shift b v Hok Hinit)
      as (b1 & Hins & Hok1 & Hinit1 & Hsz1 & Hget0 & Hshift).
    destruct (IH b1 Hok1 Hinit1) as (b' & Hall & Hok' & Hinit' & Hsz' & Hget).
    exists b'. split; [by simpl; rewrite Hins|].
    split; [done|]. split; [done|]. split; [congruence|].
    intros p Hp. rewrite Hget by lia. cbn [length].
    destruct (Z.ltb_spec p (Z.of_nat (length vals)));
      destruct (Z.ltb_spec p (Z.of_nat (S (length vals)))); try lia.
    + do 2 f_equal.
      replace (S (length vals) - 1 - Z.to_nat p)%nat
        with (S (length vals - 1 - Z.to_nat p)) by lia.
      done.
    + replace (p - Z.of_nat (length vals)) with 0 by lia. rewrite Hget0.
      by replace (S (length vals) - 1 - Z.to_nat p)%nat with 0%nat by lia.
    + replace (p - Z.of_nat (length vals))
        with (p - Z.of_nat (S (length vals)) + 1) by lia.
      apply Hshift. lia.
Qed.

(** A buffer that [rc_ringbuf_alloc] has just allocated. *)
Lemma alloc_fresh b c :
  2 <= c →
  negb (initialized b =? 0) && (size b =? c) && bool_decide (is_Some (d b)) = false →
  rc_ringbuf_alloc zero true b c =
    (0, {| d := Some (replicate (Z.to_nat c) zero); size := c; index := 0;
           initialized := 1 |}).
Proof.
  intros Hc Hnew. unfold rc_ringbuf_alloc.
  destruct (Z.ltb_spec c 2); [lia|]. by rewrite Hnew.
Qed.

Lemma fresh_ok c :
  2 <= c <= int_max →
  ringbuf_ok {| d := Some (replicate (Z.to_nat c) zero); size := c; index := 0;
                initialized := 1 |} = true.
Proof.
  intros Hc. eapply ringbuf_ok_intro; simpl; eauto; try lia.
  rewrite length_replicate. lia.
Qed.

(** Every call of the API keeps the representation invariant. *)
Lemma ringbuf_step_ok b b' :
  ringbuf_ok b = true → ringbuf_step zero b b' → ringbuf_ok b' = true.
Proof.
  intros Hok Hstep.
  destruct Hstep as [served b n Hn|b|b r b' Hr|b v r b' Hi|b p r _ _|b p r _ _];
    try done.
  - unfold rc_ringbuf_alloc. destruct (Z.ltb_spec n 2); [done|].
    destruct (_ && _); [done|]. destruct served; simpl; [|done].
    apply fresh_ok. unfold is_int in Hn. lia.
  - unfold rc_ringbuf_reset in Hr.
    destruct (Z.eqb_spec (initialized b) 0) as [|Hinit]; [by injection Hr as _ <-|].
    destruct (ringbuf_ok_allocated b Hok Hinit) as (l & Hd & Hlen & Hsz & Hidx).
    rewrite Hd, memset_zero_all in Hr by done. simpl in Hr. injection Hr as _ <-.
    eapply ringbuf_ok_intro; simpl; eauto; try lia.
    rewrite length_replicate. lia.
  - destruct (decide (initialized b = 0)) as [Hz|Hinit].
    + unfold rc_ringbuf_insert in Hi. rewrite Hz in Hi. by injection Hi as _ <-.
    + destruct (insert_shift b v Hok Hinit) as (b1 & Hins & Hok1 & _).
      congruence.
Qed.

Lemma reachable_ok b : ringbuf_reachable zero b → ringbuf_ok b = true.
Proof.
  induction 1 as [|b b' _ IH Hstep]; [done|]. by apply (ringbuf_step_ok b).
Qed.

End RingFacts.

(** ** The fifo buffer *)

Section FifoFacts.
Import C FifoBuf.
Context {T : Type}.
Variable zero : T.
Implicit Types (b : rc_fifobuf_t T) (l : list T) (v : T).

Lemma fifobuf_ok_allocated b :
  fifobuf_ok b = true → initialized b ≠ 0 →
  ∃ l, d b = Some l ∧ Z.of_nat (length l) = size b
       ∧ 2 <= size b <= int_max ∧ 0 <= tail b < size b
       ∧ 0 <= available b <= size b ∧ tail b + available b <= int_max + 1.
Proof.
  unfold fifobuf_ok. intros Hok Hinit.
  destruct (Z.eqb_spec (initialized b) 0) as [|_]; [done|]. simpl in Hok.
  destruct (d b) as [l|]; [|done]. exists l. split; [done|].
  repeat (apply andb_prop in Hok as [Hok ?]).
  rewrite ?Z.eqb_eq, ?Z.leb_le, ?Z.ltb_lt in *. lia.
Qed.

Lemma fifobuf_ok_intro b l :
  d b = Some l → Z.of_nat (length l) = size b →
  2 <= size b <= int_max → 0 <= tail b < size b →
  0 <= available b <= size b → tail b + available b <= int_max + 1 →
  fifobuf_ok b = true.
Proof.
  intros Hd Hlen Hsz Htl Hav Hsum. unfold fifobuf_ok. rewrite Hd.
  apply orb_true_intro. right.
  repeat (apply andb_true_intro; split);
    rewrite ?Z.eqb_eq, ?Z.leb_le, ?Z.ltb_lt; lia.
Qed.

Lemma push_full b v : available b = size b → rc_fifobuf_push b v = Some (-1, b).
Proof.
  intros Hfull. unfold rc_fifobuf_push. destruct (_ =? 0); [done|].
  by rewrite Hfull, Z.eqb_refl.
Qed.

Lemma pop_empty b : available b = 0 → rc_fifobuf_pop b = Some (-1, None, b).
Proof.
  intros Hempty. unfold rc_fifobuf_pop. destruct (_ =? 0); [done|].
  by rewrite Hempty.
Qed.

(** A push whose sum [tail + available] is an [int] goes through. *)
Lemma push_defined b v l :
  d b = Some l → Z.of_nat (length l) = size b → 0 < size b <= int_max →
  0 <= tail b → 0 <= available b < size b → initialized b ≠ 0 →
  tail b + available b <= int_max →
  rc_fifobuf_push b v =
    Some (0, {| d := Some (<[Z.to_nat ((tail b + available b) mod size b) := v]> l);
                size := size b; tail := tail b; available := available b + 1;
                initialized := initialized b |}).
Proof.
  intros Hd Hlen Hsz Htl Hav Hinit Hsum. unfold rc_fifobuf_push.
  destruct (Z.eqb_spec (initialized b) 0) as [|_]; [done|].
  destruct (Z.eqb_spec (available b) (size b)); [lia|].
  rewrite !int_add_small by (unfold int_min, int_max in *; lia).
  rewrite int_rem_nonneg by lia. simpl. rewrite Hd.
  rewrite store_in_bounds; [done|].
  pose proof (Z.mod_pos_bound (tail b + available b) (size b)). lia.
Qed.

(** One step past [INT_MAX] the sum wraps to [INT_MIN], the remainder is
    negative and the write would land before the block. *)
Lemma push_overflow b v :
  2 <= size b <= int_max → tail b < size b → available b < size b →
  initialized b ≠ 0 → tail b + available b = int_max + 1 →
  rc_fifobuf_push b v = None.
Proof.
  intros Hsz Htl Hav Hinit Hsum. unfold rc_fifobuf_push.
  destruct (Z.eqb_spec (initialized b) 0) as [|_]; [done|].
  destruct (Z.eqb_spec (available b) (size b)); [lia|].
  unfold int_add. rewrite Hsum. unfold int_min, int_max in *.
  change (wrap (2147483647 + 1)) with (Z.opp 2147483648).
  unfold int_rem.
  destruct (Z.eqb_spec (size b) 0); [lia|].
  destruct (Z.eqb_spec (size b) (-1)); [lia|]. rewrite andb_false_r. simpl.
  rewrite Z.rem_opp_l by lia. rewrite Z.rem_mod_nonneg by lia.
  rewrite <- (Z.mod_unique 2147483648 (size b) 1 (2147483648 - size b)) by lia.
  unfold store. destruct (d b) as [l|]; [|done]. simpl.
  unfold in_bounds. destruct (Z.leb_spec 0 (Z.opp (2147483648 - size b))); [lia|done].
Qed.

Lemma push_effect b v b' :
  fifobuf_ok b = true → initialized b ≠ 0 → rc_fifobuf_push b v = Some (0, b') →
  ∃ l, d b = Some l
       ∧ b' = {| d := Some (<[Z.to_nat ((tail b + available b) mod size b) := v]> l);
                 size := size b; tail := tail b; available := available b + 1;
                 initialized := initialized b |}.
Proof.
  intros Hok Hinit Hpush.
  destruct (fifobuf_ok_allocated b Hok Hinit)
    as (l & Hd & Hlen & Hsz & Htl & Hav & Hsum).
  exists l. split; [done|].
  destruct (decide (available b = size b)) as [Hfull|Hroom].
  { by rewrite push_full in Hpush. }
  destruct (decide (tail b + available b <= int_max)) as [Hfits|Hover].
  - rewrite (push_defined b v l) in Hpush by (done || lia). by injection Hpush as <-.
  - rewrite push_overflow in Hpush; [done|lia..].
Qed.

Lemma pop_defined b l :
  d b = Some l → Z.of_nat (length l) = size b → 0 < size b <= int_max →
  0 <= tail b < size b → 0 < available b <= size b → initialized b ≠ 0 →
  ∃ v, l !! Z.to_nat (tail b) = Some v
       ∧ rc_fifobuf_pop b =
           Some (0, Some v,
                 {| d := d b; size := size b; tail := (tail b + 1) mod size b;
                    available := available b - 1;
                    initialized := initialized b |}).
Proof.
  intros Hd Hlen Hsz Htl Hav Hinit.
  destruct (lookup_in_bounds l (tail b)) as [v Hv]; [lia|].
  exists v. split; [done|]. unfold rc_fifobuf_pop.
  destruct (Z.eqb_spec (initialized b) 0) as [|_]; [done|].
  destruct (Z.eqb_spec (available b) 0); [lia|].
  rewrite Hd, (load_in_bounds l _ v) by (done || lia). simpl.
  rewrite int_add_small, int_sub_small by (unfold int_min, int_max in *; lia).
  by rewrite int_rem_nonneg by lia.
Qed.

Lemma pop_ptr_defined b l :
  d b = Some l → Z.of_nat (length l) = size b → 0 < size b <= int_max →
  0 <= tail b < size b → 0 < available b <= size b → initialized b ≠ 0 →
  rc_fifobuf_pop_ptr b =
    Some (0, Some (tail b),
          {| d := d b; size := size b; tail := (tail b + 1) mod size b;
             available := available b - 1; initialized := initialized b |}).
Proof.
  intros Hd Hlen Hsz Htl Hav Hinit. unfold rc_fifobuf_pop_ptr.
  destruct (Z.eqb_spec (initialized b) 0) as [|_]; [done|].
  destruct (Z.eqb_spec (available b) 0); [lia|].
  rewrite Hd. unfold slot_addr. simpl. rewrite in_bounds_true by lia. simpl.
  rewrite int_add_small, int_sub_small by (unfold int_min, int_max in *; lia).
  by rewrite int_rem_nonneg by lia.
Qed.

Lemma alloc_fresh_fifo b c :
  2 <= c →
  negb (initialized b =? 0) && (size b =? c) && bool_decide (is_Some (d b)) = false →
  rc_fifobuf_alloc zero true b c =
    (0, {| d := Some (replicate (Z.to_nat c) zero); size := c; tail := 0;
           available := 0; initialized := 1 |}).
Proof.
  intros Hc Hnew. unfold rc_fifobuf_alloc.
  destruct (Z.ltb_spec c 2); [lia|]. by rewrite Hnew.
Qed.

Lemma fresh_fifo_ok c :
  2 <= c <= int_max →
  fifobuf_ok {| d := Some (replicate (Z.to_nat c) zero); size := c; tail := 0;
                available := 0; initialized := 1 |} = true.
Proof.
  intros Hc. eapply fifobuf_ok_intro; simpl; eauto; try lia.
  rewrite length_replicate. lia.
Qed.

(** The counters after a pop satisfy the invariant again. *)
Lemma popped_ok b l :
  d b = Some l → Z.of_nat (length l) = size b → 2 <= size b <= int_max →
  0 <= tail b < size b → 0 < available b <= size b →
  tail b + available b <= int_max + 1 →
  fifobuf_ok {| d := d b; size := size b; tail := (tail b + 1) mod size b;
                available := available b - 1; initialized := initialized b |} = true.
Proof.
  intros Hd Hlen Hsz Htl Hav Hsum.
  pose proof (Z.mod_pos_bound (tail b + 1) (size b)).
  pose proof (Z.mod_le (tail b + 1) (size b)).
  eapply fifobuf_ok_intro; simpl; eauto; lia.
Qed.

(** Every call of the API keeps the representation invariant. *)
Lemma fifobuf_step_ok b b' :
  fifobuf_ok b = true → fifobuf_step zero b b' → fifobuf_ok b' = true.
Proof.
  intros Hok Hstep.
  destruct Hstep as [served b n Hn|b|b r b' Hr| |b v r b' Hp|b r b' Hp|b r b' Hp];
    try done.
  - unfold rc_fifobuf_alloc. destruct (Z.ltb_spec n 2); [done|].
    destruct (_ && _); [done|]. destruct served; simpl; [|done].
    apply fresh_fifo_ok. unfold is_int in Hn. lia.
  - unfold rc_fifobuf_reset in Hr.
    destruct (Z.eqb_spec (initialized b) 0) as [|Hinit]; [by injection Hr as _ <-|].
    destruct (fifobuf_ok_allocated b Hok Hinit) as (l & Hd & Hlen & Hsz & _).
    rewrite Hd, memset_zero_all in Hr by done. simpl in Hr. injection Hr as _ <-.
    eapply fifobuf_ok_intro; simpl; eauto; try lia.
    rewrite length_replicate. lia.
  - destruct (decide (initialized b = 0)) as [Hz|Hinit].
    { unfold rc_fifobuf_push in Hp. rewrite Hz in Hp. by injection Hp as _ <-. }
    destruct (decide (available b = size b)) as [Hfull|Hroom].
    { rewrite push_full in Hp by done. by injection Hp as _ <-. }
    destruct (fifobuf_ok_allocated b Hok Hinit)
      as (l & Hd & Hlen & Hsz & Htl & Hav & Hsum).
    destruct (decide (tail b + available b <= int_max)) as [Hfits|Hover].
    + rewrite (push_defined b v l) in Hp by (done || lia). injection Hp as _ <-.
      eapply fifobuf_ok_intro; simpl; eauto; try lia.
      by rewrite length_insert.
    + rewrite push_overflow in Hp; [done|lia..].
  - destruct (decide (initialized b = 0)) as [Hz|Hinit].
    { unfold rc_fifobuf_pop in Hp. rewrite Hz in Hp. by injection Hp as _ <-. }
    destruct (decide (available b = 0)) as [Hempty|Hsome].
    { rewrite pop_empty in Hp by done. by injection Hp as _ <-. }
    destruct (fifobuf_ok_allocated b Hok Hinit)
      as (l & Hd & Hlen & Hsz & Htl & Hav & Hsum).
    destruct (pop_defined b l) as (v & _ & Hpop); try done; try lia.
    rewrite Hpop in Hp. injection Hp as _ <-. apply (popped_ok b l); done || lia.
  - destruct (decide (initialized b = 0)) as [Hz|Hinit].
    { unfold rc_fifobuf_pop_ptr in Hp. rewrite Hz in Hp. by injection Hp as _ <-. }
    destruct (decide (available b = 0)) as [Hempty|Hsome].
    { unfold rc_fifobuf_pop_ptr in Hp.
      destruct (Z.eqb_spec (initialized b) 0) as [|_]; [done|].
      rewrite Hempty in Hp. by injection Hp as _ <-. }
    destruct (fifobuf_ok_allocated b Hok Hinit)
      as (l & Hd & Hlen & Hsz & Htl & Hav & Hsum).
    rewrite (pop_ptr_defined b l) in Hp by (done || lia).
    injection Hp as _ <-. apply (popped_ok b l); done || lia.
Qed.

Lemma fifo_reachable_ok b : fifobuf_reachable zero b → fifobuf_ok b = true.
Proof.
  induction 1 as [|b b' _ IH Hstep]; [done|]. by apply (fifobuf_step_ok b).
Qed.

End FifoFacts.

(** ** The runs of the two test programs *)

(** test_ring_buf.c: the fresh buffer prints 0 0 0, after 0, 1, 2 it prints
    2 1 0, and after 0, 1, 2, 3 on top it prints 3 2 1. *)
Example test_ring_buf_run :
  let contents (b : RingBuf.rc_ringbuf_t Z) :=
    (RingBuf.rc_ringbuf_get_value b 0, RingBuf.rc_ringbuf_get_value b 1,
     RingBuf.rc_ringbuf_get_value b 2) in
  let b0 := (RingBuf.rc_ringbuf_alloc 0 true RingBuf.rc_ringbuf_empty 3).2 in
  contents b0 = (Some (0, Some 0), Some (0, Some 0), Some (0, Some 0))
  ∧ (b1 ← RingBuf.insert_all b0 [0; 1; 2]; Some (contents b1))
    = Some (Some (0, Some 2), Some (0, Some 1), Some (0, Some 0))
  ∧ (b1 ← RingBuf.insert_all b0 [0; 1; 2];
     b2 ← RingBuf.insert_all b1 [0; 1; 2; 3]; Some (contents b2))
    = Some (Some (0, Some 3), Some (0, Some 2), Some (0, Some 1)).
Proof. repeat split. Qed.

(** The fifo test: a pop from the fresh buffer returns -1, a pushed 1 comes
    back, and after 2, 3, 4 a push of 5 returns -1 with 3 entries
    available. *)
Example test_fifo_buf_run :
  let b0 := (FifoBuf.rc_fifobuf_alloc 0 true FifoBuf.rc_fifobuf_empty 3).2 in
  FifoBuf.rc_fifobuf_pop b0 = Some (-1, None, b0)
  ∧ FifoBuf.rc_fifobuf_available b0 = 0
  ∧ (b1 ← FifoBuf.rc_fifobuf_push b0 1; FifoBuf.rc_fifobuf_pop b1.2)
    = Some (0, Some 1, FifoBuf.mk_fifobuf (Some [1; 0; 0]) 3 1 0 1)
  ∧ (b2 ← FifoBuf.rc_fifobuf_push (FifoBuf.mk_fifobuf (Some [1; 0; 0]) 3 1 0 1) 2;
     b3 ← FifoBuf.rc_fifobuf_push b2.2 3;
     b4 ← FifoBuf.rc_fifobuf_push b3.2 4;
     b5 ← FifoBuf.rc_fifobuf_push b4.2 5;
     Some (b5.1, FifoBuf.rc_fifobuf_available b5.2, b5.2))
    = Some (-1, 3, FifoBuf.mk_fifobuf (Some [4; 2; 3]) 3 1 3 1).
Proof. repeat split. Qed.

Section RingContracts.
Import C RingBuf.
Context {T : Type}.
Variable zero : T.
Implicit Types (b : rc_ringbuf_t T) (l : list T) (v : T).

(** C3.  On a buffer that satisfies the representation invariant,
    [rc_ringbuf_get_value] returns -1 exactly when the buffer is not
    allocated or [position] lies outside [0, size-1]; in every other case it
    returns 0 together with the value stored in slot
    [(index - position) mod size]. *)
Theorem get_value_contract b position :
  ringbuf_ok b = true →
  (rc_ringbuf_get_value b position = Some (-1, None)
     ↔ initialized b = 0 ∨ position < 0 ∨ size b - 1 < position)
  ∧ (initialized b ≠ 0 → 0 <= position <= size b - 1 →
       ∃ l v, d b = Some l
              ∧ l !! Z.to_nat ((index b - position) mod size b) = Some v
              ∧ rc_ringbuf_get_value b position = Some (0, Some v)).
Proof.
  intros Hok.
  assert (Hsucc : initialized b ≠ 0 → 0 <= position <= size b - 1 →
       ∃ l v, d b = Some l
              ∧ l !! Z.to_nat ((index b - position) mod size b) = Some v
              ∧ rc_ringbuf_get_value b position = Some (0, Some v)).
  { intros Hinit Hpos.
    destruct (ringbuf_ok_allocated b Hok Hinit) as (l & Hd & Hlen & Hsz & Hidx).
    destruct (get_value_allocated b position l) as (v & Hv & Hget);
      try done; try lia.
    by exists l, v. }
  split; [|done]. split.
  - intros Hfail.
    destruct (decide (initialized b = 0)) as [|Hinit]; [by left|].
    destruct (decide (0 <= position <= size b - 1)) as [Hpos|]; [|lia].
    destruct (Hsucc Hinit Hpos) as (l & v & _ & _ & Hget). congruence.
  - by apply get_value_out_of_range.
Qed.

(** C5.  On an allocated buffer [rc_ringbuf_insert] returns 0, moves the
    cursor to [(index + 1) mod size] and writes the value into that slot;
    a lookback of 0 on the result returns the value just inserted. *)
Theorem insert_advances_then_writes b v :
  ringbuf_ok b = true → initialized b ≠ 0 →
  ∃ l, d b = Some l ∧
    let cursor := (index b + 1) mod size b in
    let b' := {| d := Some (<[Z.to_nat cursor := v]> l); size := size b;
                 index := cursor; initialized := initialized b |} in
    rc_ringbuf_insert b v = Some (0, b')
    ∧ rc_ringbuf_get_value b' 0 = Some (0, Some v).
Proof.
  intros Hok Hinit.
  destruct (ringbuf_ok_allocated b Hok Hinit) as (l & Hd & Hlen & Hsz & Hidx).
  destruct (insert_shift b v Hok Hinit) as (b1 & Hins & _ & _ & _ & Hget & _).
  exists l. split; [done|]. cbv zeta.
  rewrite (insert_allocated b v l) in Hins by (done || lia).
  injection Hins as <-.
  split; [by apply insert_allocated; try lia|done].
Qed.

(** C7.  For every capacity between 2 and [INT_MAX]: allocating an empty
    buffer returns 0 when the allocator serves the request, and on the
    untouched buffer that an allocation returning 0 leaves, a lookback of 0
    returns 0 together with the zero value. *)
Theorem fresh_buffer_reads_zero c :
  2 <= c <= int_max →
  (∃ b, rc_ringbuf_alloc zero true rc_ringbuf_empty c = (0, b))
  ∧ (∀ served b, rc_ringbuf_alloc zero served rc_ringbuf_empty c = (0, b) →
       rc_ringbuf_get_value b 0 = Some (0, Some zero)).
Proof.
  intros Hc. split; [eexists; by apply alloc_fresh; [lia|]|].
  intros served b Halloc. unfold rc_ringbuf_alloc in Halloc.
  destruct (Z.ltb_spec c 2); [lia|]. simpl in Halloc.
  destruct served; simpl in Halloc; [|done]. injection Halloc as <-.
  set (b := mk_ringbuf _ _ _ _).
  destruct (get_value_allocated b 0 _ eq_refl) as (v & Hv & ->);
    simpl; rewrite ?length_replicate; try lia; try done.
  simpl in Hv. rewrite Z.mod_0_l in Hv by lia.
  apply lookup_replicate_1 in Hv as [-> _]. done.
Qed.

(** C10.  A successful insert on an allocated buffer keeps the length of
    the storage, writes the value into the slot of the new cursor and
    leaves every other slot as it was; a lookback of [p + 1] on the result
    returns what a lookback of [p] returned before, for every [p] in
    [0, size-2], and a lookback of 0 returns the inserted value. *)
Theorem insert_frame_shift b v :
  ringbuf_ok b = true → initialized b ≠ 0 →
  ∃ l l' b',
    d b = Some l ∧ rc_ringbuf_insert b v = Some (0, b')
    ∧ d b' = Some l' ∧ size b' = size b ∧ length l' = length l
    ∧ 0 <= index b' < size b
    ∧ l' !! Z.to_nat (index b') = Some v
    ∧ (∀ i : nat, i ≠ Z.to_nat (index b') → l' !! i = l !! i)
    ∧ (∀ p, 0 <= p <= size b - 2 →
         ∃ w, rc_ringbuf_get_value b p = Some (0, Some w)
              ∧ rc_ringbuf_get_value b' (p + 1) = Some (0, Some w))
    ∧ rc_ringbuf_get_value b' 0 = Some (0, Some v).
Proof.
  intros Hok Hinit.
  destruct (ringbuf_ok_allocated b Hok Hinit) as (l & Hd & Hlen & Hsz & Hidx).
  destruct (insert_shift b v Hok Hinit) as (b1 & Hins & _ & _ & _ & Hget & Hsh).
  pose proof (Z.mod_pos_bound (index b + 1) (size b)) as Hm.
  exists l. eexists. exists b1. split; [done|]. split; [done|].
  rewrite (insert_allocated b v l) in Hins by (done || lia).
  injection Hins as <-. simpl in *.
  split; [done|]. split; [done|]. split; [by rewrite length_insert|].
  split; [lia|]. split; [apply list_lookup_insert_eq; lia|].
  split; [intros i Hi; by apply list_lookup_insert_ne|].
  split; [|done]. intros p Hp.
  destruct (get_value_allocated b p l) as (w & _ & Hw); try done; try lia.
  exists w. split; [done|]. by rewrite Hsh.
Qed.

End RingContracts.

(** C1.  For every capacity [c] between 2 and [INT_MAX] and every [c]
    values, inserting the values in order into a buffer freshly allocated
    with capacity [c] gives a buffer whose lookback of 0 returns the last
    value and whose lookback of [c - 1] returns the first.  With capacity 3
    and the values 1, 2, 3, 4 the lookbacks of 0, 1 and 2 return 4, 3 and
    2, and no position returns 1. *)
Theorem retention_order :
  (∀ (T : Type) (zero : T) (c : Z) (vals : list T),
     2 <= c <= C.int_max → Z.of_nat (length vals) = c →
     ∃ b0 b v_first v_last,
       RingBuf.rc_ringbuf_alloc zero true RingBuf.rc_ringbuf_empty c = (0, b0)
       ∧ RingBuf.insert_all b0 vals = Some b
       ∧ head vals = Some v_first ∧ last vals = Some v_last
       ∧ RingBuf.rc_ringbuf_get_value b 0 = Some (0, Some v_last)
       ∧ RingBuf.rc_ringbuf_get_value b (c - 1) = Some (0, Some v_first))
  ∧ (∃ b0 b,
       RingBuf.rc_ringbuf_alloc 0 true RingBuf.rc_ringbuf_empty 3 = (0, b0)
       ∧ RingBuf.insert_all b0 [1; 2; 3; 4] = Some b
       ∧ RingBuf.rc_ringbuf_get_value b 0 = Some (0, Some 4)
       ∧ RingBuf.rc_ringbuf_get_value b 1 = Some (0, Some 3)
       ∧ RingBuf.rc_ringbuf_get_value b 2 = Some (0, Some 2)
       ∧ ∀ p, RingBuf.rc_ringbuf_get_value b p ≠ Some (0, Some 1)).
Proof.
  split.
  - intros T zero c vals Hc Hlen.
    pose proof (fresh_ok zero c Hc) as Hok.
    destruct (insert_all_get vals _ Hok) as (b & Hall & _ & _ & _ & Hget); [done|].
    simpl in Hget.
    destruct (lookup_lt_is_Some_2 vals 0) as [v_first Hfirst]; [lia|].
    destruct (lookup_lt_is_Some_2 vals (pred (length vals))) as [v_last Hlast]; [lia|].
    eexists _, b, v_first, v_last.
    split; [by apply alloc_fresh; [lia|]|]. split; [done|].
    split; [by rewrite head_lookup|]. split; [by rewrite last_lookup|].
    split.
    + rewrite Hget by lia. destruct (Z.ltb_spec 0 (Z.of_nat (length vals))); [|lia].
      do 2 f_equal. rewrite <- Hlast. f_equal. lia.
    + rewrite Hget by lia.
      destruct (Z.ltb_spec (c - 1) (Z.of_nat (length vals))); [|lia].
      do 2 f_equal. rewrite <- Hfirst. f_equal. lia.
  - exists (RingBuf.mk_ringbuf (Some [0; 0; 0]) 3 0 1), Samples.ring_1234.
    repeat (split; [reflexivity|]). intros p.
    destruct (decide (0 <= p <= 2)) as [Hp|Hp].
    + assert (p = 0 ∨ p = 1 ∨ p = 2) as [-> | [-> | ->]] by lia; by vm_compute.
    + rewrite get_value_out_of_range; [done|done|]. simpl. lia.
Qed.

(** The statement at capacity 2 with the values 7 and 9. *)
Lemma retention_order_witness :
  2 <= 2 <= C.int_max ∧ Z.of_nat (length [7; 9]) = 2
  ∧ ∃ b0 b v_first v_last,
      RingBuf.rc_ringbuf_alloc 0 true RingBuf.rc_ringbuf_empty 2 = (0, b0)
      ∧ RingBuf.insert_all b0 [7; 9] = Some b
      ∧ head [7; 9] = Some v_first ∧ last [7; 9] = Some v_last
      ∧ RingBuf.rc_ringbuf_get_value b 0 = Some (0, Some v_last)
      ∧ RingBuf.rc_ringbuf_get_value b (2 - 1) = Some (0, Some v_first).
Proof.
  split; [by vm_compute|]. split; [reflexivity|].
  apply (proj1 retention_order Z 0 2 [7; 9]); [by vm_compute|reflexivity].
Defined.

(** C2.  On an allocated fifo buffer that satisfies the representation
    invariant: a push that returns 0 has written its value into slot
    [(tail + available) mod size] and raised [available] by one, and a
    push into a buffer that is not full returns 0 whenever
    [tail + available] is an [int]; a pop from a buffer that is not empty
    returns 0 with the value in slot [tail], lowers [available] by one
    and moves [tail] to [(tail + 1) mod size].  With capacity 3, after
    pushing 1, 2, 3 the pops return 1, 2, 3 in this order while
    [rc_fifobuf_available] returns 2, 1, 0, and one more pop returns -1. *)
Theorem push_pop_fifo_order :
  (∀ (T : Type) (b b' : FifoBuf.rc_fifobuf_t T) (v : T),
     FifoBuf.fifobuf_ok b = true → FifoBuf.initialized b ≠ 0 →
     FifoBuf.rc_fifobuf_push b v = Some (0, b') →
     ∃ l, FifoBuf.d b = Some l
          ∧ b' = {| FifoBuf.d :=
                      Some (<[Z.to_nat ((FifoBuf.tail b + FifoBuf.available b)
                                         mod FifoBuf.size b) := v]> l);
                    FifoBuf.size := FifoBuf.size b;
                    FifoBuf.tail := FifoBuf.tail b;
                    FifoBuf.available := FifoBuf.available b + 1;
                    FifoBuf.initialized := FifoBuf.initialized b |})
  ∧ (∀ (T : Type) (b : FifoBuf.rc_fifobuf_t T) (v : T),
       FifoBuf.fifobuf_ok b = true → FifoBuf.initialized b ≠ 0 →
       FifoBuf.available b ≠ FifoBuf.size b →
       FifoBuf.tail b + FifoBuf.available b <= C.int_max →
       ∃ b', FifoBuf.rc_fifobuf_push b v = Some (0, b'))
  ∧ (∀ (T : Type) (b : FifoBuf.rc_fifobuf_t T),
       FifoBuf.fifobuf_ok b = true → FifoBuf.initialized b ≠ 0 →
       FifoBuf.available b ≠ 0 →
       ∃ l v, FifoBuf.d b = Some l ∧ l !! Z.to_nat (FifoBuf.tail b) = Some v
              ∧ FifoBuf.rc_fifobuf_pop b =
                  Some (0, Some v,
                        {| FifoBuf.d := FifoBuf.d b;
                           FifoBuf.size := FifoBuf.size b;
                           FifoBuf.tail := (FifoBuf.tail b + 1) mod FifoBuf.size b;
                           FifoBuf.available := FifoBuf.available b - 1;
                           FifoBuf.initialized := FifoBuf.initialized b |}))
  ∧ (∃ b0 b1 b2 b3 b4 b5 b6,
       FifoBuf.rc_fifobuf_alloc 0 true FifoBuf.rc_fifobuf_empty 3 = (0, b0)
       ∧ FifoBuf.rc_fifobuf_push b0 1 = Some (0, b1)
       ∧ FifoBuf.rc_fifobuf_push b1 2 = Some (0, b2)
       ∧ FifoBuf.rc_fifobuf_push b2 3 = Some (0, b3)
       ∧ FifoBuf.rc_fifobuf_pop b3 = Some (0, Some 1, b4)
       ∧ FifoBuf.rc_fifobuf_available b4 = 2
       ∧ FifoBuf.rc_fifobuf_pop b4 = Some (0, Some 2, b5)
       ∧ FifoBuf.rc_fifobuf_available b5 = 1
       ∧ FifoBuf.rc_fifobuf_pop b5 = Some (0, Some 3, b6)
       ∧ FifoBuf.rc_fifobuf_available b6 = 0
       ∧ FifoBuf.rc_fifobuf_pop b6 = Some (-1, None, b6)).
Proof.
  split; [|split; [|split]].
  - intros T b b' v Hok Hinit Hpush. by apply push_effect.
  - intros T b v Hok Hinit Hroom Hfits.
    destruct (fifobuf_ok_allocated b Hok Hinit)
      as (l & Hd & Hlen & Hsz & Htl & Hav & _).
    eexists. apply (push_defined b v l); done || lia.
  - intros T b Hok Hinit Hsome.
    destruct (fifobuf_ok_allocated b Hok Hinit)
      as (l & Hd & Hlen & Hsz & Htl & Hav & _).
    destruct (pop_defined b l) as (v & Hv & Hpop); try done; try lia.
    by exists l, v.
  - exists (FifoBuf.mk_fifobuf (Some [0; 0; 0]) 3 0 0 1), (FifoBuf.mk_fifobuf (Some [1; 0; 0]) 3 0 1 1),
      (FifoBuf.mk_fifobuf (Some [1; 2; 0]) 3 0 2 1), Samples.fifo_full,
      Samples.fifo_23, (FifoBuf.mk_fifobuf (Some [1; 2; 3]) 3 2 1 1),
      Samples.fifo_drained.
    repeat (split; [reflexivity|]). reflexivity.
Qed.

(** The three general parts on the fifo that holds 2 and 3. *)
Lemma push_pop_fifo_order_witness :
  FifoBuf.fifobuf_ok Samples.fifo_23 = true
  ∧ FifoBuf.initialized Samples.fifo_23 ≠ 0
  ∧ FifoBuf.rc_fifobuf_push Samples.fifo_23 4
    = Some (0, FifoBuf.mk_fifobuf (Some [4; 2; 3]) 3 1 3 1)
  ∧ (∃ l, FifoBuf.d Samples.fifo_23 = Some l
          ∧ FifoBuf.mk_fifobuf (Some [4; 2; 3]) 3 1 3 1
            = FifoBuf.mk_fifobuf (Some (<[Z.to_nat ((1 + 2) mod 3) := 4]> l)) 3 1 (2 + 1) 1)
  ∧ FifoBuf.available Samples.fifo_23 ≠ FifoBuf.size Samples.fifo_23
  ∧ FifoBuf.tail Samples.fifo_23 + FifoBuf.available Samples.fifo_23 <= C.int_max
  ∧ (∃ b', FifoBuf.rc_fifobuf_push Samples.fifo_23 4 = Some (0, b'))
  ∧ FifoBuf.available Samples.fifo_23 ≠ 0
  ∧ (∃ l v, FifoBuf.d Samples.fifo_23 = Some l ∧ l !! Z.to_nat 1 = Some v
            ∧ FifoBuf.rc_fifobuf_pop Samples.fifo_23
              = Some (0, Some v, FifoBuf.mk_fifobuf (Some [1; 2; 3]) 3 ((1 + 1) mod 3) (2 - 1) 1)).
Proof.
  destruct push_pop_fifo_order as (Hpush & Hroom & Hpop & _).
  split; [reflexivity|]. split; [by vm_compute|]. split; [reflexivity|].
  split; [exact (Hpush Z Samples.fifo_23 _ 4 eq_refl ltac:(by vm_compute) eq_refl)|].
  split; [by vm_compute|]. split; [by vm_compute|].
  split; [exact (Hroom Z Samples.fifo_23 4 eq_refl ltac:(by vm_compute)
                   ltac:(by vm_compute) ltac:(by vm_compute))|].
  split; [by vm_compute|].
  exact (Hpop Z Samples.fifo_23 eq_refl ltac:(by vm_compute) ltac:(by vm_compute)).
Defined.

(** C4.  A push into an allocated fifo buffer whose [available] equals
    [size] returns -1 and hands the struct back as it was, so that
    [rc_fifobuf_available] still returns [size]; a pop from an allocated
    buffer whose [available] is 0 returns -1, writes no value and hands the
    struct back as it was; [rc_fifobuf_available] returns 0 on the buffer
    that a successful allocation of an unallocated struct produces. *)
Theorem boundary_failures_atomic :
  (∀ (T : Type) (b : FifoBuf.rc_fifobuf_t T) (v : T),
     FifoBuf.initialized b ≠ 0 → FifoBuf.available b = FifoBuf.size b →
     ∃ b', FifoBuf.rc_fifobuf_push b v = Some (-1, b') ∧ b' = b
           ∧ FifoBuf.rc_fifobuf_available b' = FifoBuf.size b)
  ∧ (∀ (T : Type) (b : FifoBuf.rc_fifobuf_t T),
       FifoBuf.initialized b ≠ 0 → FifoBuf.available b = 0 →
       FifoBuf.rc_fifobuf_pop b = Some (-1, None, b))
  ∧ (∀ (T : Type) (zero : T) (served : bool) (b b' : FifoBuf.rc_fifobuf_t T) (c : Z),
       FifoBuf.initialized b = 0 →
       FifoBuf.rc_fifobuf_alloc zero served b c = (0, b') →
       FifoBuf.rc_fifobuf_available b' = 0)
  ∧ (∀ (T : Type) (zero : T) (c : Z),
       2 <= c →
       ∃ b', FifoBuf.rc_fifobuf_alloc zero true FifoBuf.rc_fifobuf_empty c = (0, b')
             ∧ FifoBuf.rc_fifobuf_available b' = 0).
Proof.
  split; [|split; [|split]].
  - intros T b v Hinit Hfull. exists b. split; [by apply push_full|].
    split; [done|]. unfold FifoBuf.rc_fifobuf_available.
    by destruct (Z.eqb_spec (FifoBuf.initialized b) 0).
  - intros T b _ Hempty. by apply pop_empty.
  - intros T zero served b b' c Hinit. unfold FifoBuf.rc_fifobuf_alloc.
    destruct (c <? 2); [by intros [=]|]. rewrite Hinit. simpl.
    destruct served; simpl; intros [= <-]. done.
  - intros T zero c Hc. eexists. split; [by apply alloc_fresh_fifo|done].
Qed.

(** The four parts on the full fifo, the drained fifo and capacity 3. *)
Lemma boundary_failures_atomic_witness :
  FifoBuf.initialized Samples.fifo_full ≠ 0
  ∧ FifoBuf.available Samples.fifo_full = FifoBuf.size Samples.fifo_full
  ∧ (∃ b', FifoBuf.rc_fifobuf_push Samples.fifo_full 4 = Some (-1, b')
           ∧ b' = Samples.fifo_full ∧ FifoBuf.rc_fifobuf_available b' = 3)
  ∧ FifoBuf.initialized Samples.fifo_drained ≠ 0
  ∧ FifoBuf.available Samples.fifo_drained = 0
  ∧ FifoBuf.rc_fifobuf_pop Samples.fifo_drained = Some (-1, None, Samples.fifo_drained)
  ∧ FifoBuf.initialized (@FifoBuf.rc_fifobuf_empty Z) = 0
  ∧ FifoBuf.rc_fifobuf_alloc 0 true FifoBuf.rc_fifobuf_empty 3
    = (0, FifoBuf.mk_fifobuf (Some [0; 0; 0]) 3 0 0 1)
  ∧ FifoBuf.rc_fifobuf_available (FifoBuf.mk_fifobuf (Some [0; 0; 0]) 3 0 0 1) = 0
  ∧ 2 <= 3
  ∧ (∃ b', FifoBuf.rc_fifobuf_alloc 0 true FifoBuf.rc_fifobuf_empty 3 = (0, b')
           ∧ FifoBuf.rc_fifobuf_available b' = 0).
Proof.
  destruct boundary_failures_atomic as (Hpush & Hpop & Hnew & Hnew').
  split; [by vm_compute|]. split; [reflexivity|].
  split; [exact (Hpush Z Samples.fifo_full 4 ltac:(by vm_compute) eq_refl)|].
  split; [by vm_compute|]. split; [reflexivity|].
  split; [exact (Hpop Z Samples.fifo_drained ltac:(by vm_compute) eq_refl)|].
  split; [reflexivity|]. split; [reflexivity|].
  split; [exact (Hnew Z 0 true FifoBuf.rc_fifobuf_empty _ 3 eq_refl eq_refl)|].
  split; [lia|]. exact (Hnew' Z 0 3 ltac:(lia)).
Defined.

(** C6, as the code has it.  For both buffer types: an allocation with a
    capacity below 2 returns -1 and leaves the struct as it was; on a struct
    that is allocated with exactly the requested capacity it returns 0 and
    leaves the struct as it was; in every other case, when the allocator
    serves the request it returns 0 with a zero-filled block of the
    requested length and all cursors at 0, and when the allocator does not
    it returns -1 and leaves the struct in the empty state. *)
Theorem alloc_contract :
  (∀ (T : Type) (zero : T) (served : bool) (b : RingBuf.rc_ringbuf_t T) (c : Z),
     c < 2 → RingBuf.rc_ringbuf_alloc zero served b c = (-1, b))
  ∧ (∀ (T : Type) (zero : T) (served : bool) (b : RingBuf.rc_ringbuf_t T) (c : Z),
       2 <= c → RingBuf.initialized b ≠ 0 → RingBuf.size b = c →
       is_Some (RingBuf.d b) →
       RingBuf.rc_ringbuf_alloc zero served b c = (0, b))
  ∧ (∀ (T : Type) (zero : T) (b : RingBuf.rc_ringbuf_t T) (c : Z),
       2 <= c →
       ¬ (RingBuf.initialized b ≠ 0 ∧ RingBuf.size b = c ∧ is_Some (RingBuf.d b)) →
       RingBuf.rc_ringbuf_alloc zero true b c =
         (0, {| RingBuf.d := Some (replicate (Z.to_nat c) zero);
                RingBuf.size := c; RingBuf.index := 0;
                RingBuf.initialized := 1 |})
       ∧ RingBuf.rc_ringbuf_alloc zero false b c = (-1, RingBuf.rc_ringbuf_empty))
  ∧ (∀ (T : Type) (zero : T) (served : bool) (b : FifoBuf.rc_fifobuf_t T) (c : Z),
       c < 2 → FifoBuf.rc_fifobuf_alloc zero served b c = (-1, b))
  ∧ (∀ (T : Type) (zero : T) (served : bool) (b : FifoBuf.rc_fifobuf_t T) (c : Z),
       2 <= c → FifoBuf.initialized b ≠ 0 → FifoBuf.size b = c →
       is_Some (FifoBuf.d b) →
       FifoBuf.rc_fifobuf_alloc zero served b c = (0, b))
  ∧ (∀ (T : Type) (zero : T) (b : FifoBuf.rc_fifobuf_t T) (c : Z),
       2 <= c →
       ¬ (FifoBuf.initialized b ≠ 0 ∧ FifoBuf.size b = c ∧ is_Some (FifoBuf.d b)) →
       FifoBuf.rc_fifobuf_alloc zero true b c =
         (0, {| FifoBuf.d := Some (replicate (Z.to_nat c) zero);
                FifoBuf.size := c; FifoBuf.tail := 0; FifoBuf.available := 0;
                FifoBuf.initialized := 1 |})
       ∧ FifoBuf.rc_fifobuf_alloc zero false b c = (-1, FifoBuf.rc_fifobuf_empty)).
Proof.
  split; [|split; [|split; [|split; [|split]]]].
  - intros T zero served b c Hc. unfold RingBuf.rc_ringbuf_alloc.
    by destruct (Z.ltb_spec c 2); [|lia].
  - intros T zero served b c Hc Hinit Hsz Hd. unfold RingBuf.rc_ringbuf_alloc.
    destruct (Z.ltb_spec c 2); [lia|].
    destruct (Z.eqb_spec (RingBuf.initialized b) 0); [done|].
    by rewrite Hsz, Z.eqb_refl, bool_decide_eq_true_2.
  - intros T zero b c Hc Hnew.
    assert (Hcond : negb (RingBuf.initialized b =? 0) && (RingBuf.size b =? c)
                    && bool_decide (is_Some (RingBuf.d b)) = false).
    { destruct (Z.eqb_spec (RingBuf.initialized b) 0); [done|].
      destruct (Z.eqb_spec (RingBuf.size b) c); [|done].
      simpl. apply bool_decide_eq_false_2. tauto. }
    split; [by apply alloc_fresh|].
    unfold RingBuf.rc_ringbuf_alloc. destruct (Z.ltb_spec c 2); [lia|].
    by rewrite Hcond.
  - intros T zero served b c Hc. unfold FifoBuf.rc_fifobuf_alloc.
    by destruct (Z.ltb_spec c 2); [|lia].
  - intros T zero served b c Hc Hinit Hsz Hd. unfold FifoBuf.rc_fifobuf_alloc.
    destruct (Z.ltb_spec c 2); [lia|].
    destruct (Z.eqb_spec (FifoBuf.initialized b) 0); [done|].
    by rewrite Hsz, Z.eqb_refl, bool_decide_eq_true_2.
  - intros T zero b c Hc Hnew.
    assert (Hcond : negb (FifoBuf.initialized b =? 0) && (FifoBuf.size b =? c)
                    && bool_decide (is_Some (FifoBuf.d b)) = false).
    { destruct (Z.eqb_spec (FifoBuf.initialized b) 0); [done|].
      destruct (Z.eqb_spec (FifoBuf.size b) c); [|done].
      simpl. apply bool_decide_eq_false_2. tauto. }
    split; [by apply alloc_fresh_fifo|].
    unfold FifoBuf.rc_fifobuf_alloc. destruct (Z.ltb_spec c 2); [lia|].
    by rewrite Hcond.
Qed.

(** The six parts at capacity 1, on the sample buffers at their own
    capacity 3 and on the empty structs at capacity 3. *)
Lemma alloc_contract_witness :
  (1 < 2
   ∧ RingBuf.rc_ringbuf_alloc 0 true Samples.ring_1234 1 = (-1, Samples.ring_1234))
  ∧ (2 <= 3 ∧ RingBuf.initialized Samples.ring_1234 ≠ 0
     ∧ RingBuf.size Samples.ring_1234 = 3 ∧ is_Some (RingBuf.d Samples.ring_1234)
     ∧ RingBuf.rc_ringbuf_alloc 0 true Samples.ring_1234 3 = (0, Samples.ring_1234))
  ∧ (¬ (RingBuf.initialized (@RingBuf.rc_ringbuf_empty Z) ≠ 0
        ∧ RingBuf.size (@RingBuf.rc_ringbuf_empty Z) = 3
        ∧ is_Some (RingBuf.d (@RingBuf.rc_ringbuf_empty Z)))
     ∧ RingBuf.rc_ringbuf_alloc 0 true RingBuf.rc_ringbuf_empty 3
       = (0, RingBuf.mk_ringbuf (Some (replicate (Z.to_nat 3) 0)) 3 0 1)
     ∧ RingBuf.rc_ringbuf_alloc 0 false RingBuf.rc_ringbuf_empty 3
       = (-1, RingBuf.rc_ringbuf_empty))
  ∧ (1 < 2
     ∧ FifoBuf.rc_fifobuf_alloc 0 true Samples.fifo_23 1 = (-1, Samples.fifo_23))
  ∧ (2 <= 3 ∧ FifoBuf.initialized Samples.fifo_23 ≠ 0
     ∧ FifoBuf.size Samples.fifo_23 = 3 ∧ is_Some (FifoBuf.d Samples.fifo_23)
     ∧ FifoBuf.rc_fifobuf_alloc 0 true Samples.fifo_23 3 = (0, Samples.fifo_23))
  ∧ (¬ (FifoBuf.initialized (@FifoBuf.rc_fifobuf_empty Z) ≠ 0
        ∧ FifoBuf.size (@FifoBuf.rc_fifobuf_empty Z) = 3
        ∧ is_Some (FifoBuf.d (@FifoBuf.rc_fifobuf_empty Z)))
     ∧ FifoBuf.rc_fifobuf_alloc 0 true FifoBuf.rc_fifobuf_empty 3
       = (0, FifoBuf.mk_fifobuf (Some (replicate (Z.to_nat 3) 0)) 3 0 0 1)
     ∧ FifoBuf.rc_fifobuf_alloc 0 false FifoBuf.rc_fifobuf_empty 3
       = (-1, FifoBuf.rc_fifobuf_empty)).
Proof.
  destruct alloc_contract as (Hsmall & Hsame & Hnew & Hsmall' & Hsame' & Hnew').
  assert (Hfree : ¬ (RingBuf.initialized (@RingBuf.rc_ringbuf_empty Z) ≠ 0
       ∧ RingBuf.size (@RingBuf.rc_ringbuf_empty Z) = 3
       ∧ is_Some (RingBuf.d (@RingBuf.rc_ringbuf_empty Z)))).
  { simpl. intros (H & _). by apply H. }
  assert (Hfree' : ¬ (FifoBuf.initialized (@FifoBuf.rc_fifobuf_empty Z) ≠ 0
       ∧ FifoBuf.size (@FifoBuf.rc_fifobuf_empty Z) = 3
       ∧ is_Some (FifoBuf.d (@FifoBuf.rc_fifobuf_empty Z)))).
  { simpl. intros (H & _). by apply H. }
  split; [|split; [|split; [|split; [|split]]]].
  - split; [lia|]. exact (Hsmall Z 0 true Samples.ring_1234 1 ltac:(lia)).
  - split; [lia|]. split; [by vm_compute|]. split; [reflexivity|].
    split; [by eexists|].
    exact (Hsame Z 0 true Samples.ring_1234 3 ltac:(lia)
             ltac:(by vm_compute) eq_refl ltac:(by eexists)).
  - split; [exact Hfree|].
    exact (Hnew Z 0 RingBuf.rc_ringbuf_empty 3 ltac:(lia) Hfree).
  - split; [lia|]. exact (Hsmall' Z 0 true Samples.fifo_23 1 ltac:(lia)).
  - split; [lia|]. split; [by vm_compute|]. split; [reflexivity|].
    split; [by eexists|].
    exact (Hsame' Z 0 true Samples.fifo_23 3 ltac:(lia)
             ltac:(by vm_compute) eq_refl ltac:(by eexists)).
  - split; [exact Hfree'|].
    exact (Hnew' Z 0 FifoBuf.rc_fifobuf_empty 3 ltac:(lia) Hfree').
Defined.

(** Without the proviso on the allocator C6 fails: with a capacity of 3 and
    a struct that is not allocated, both allocation functions return -1 and
    leave the empty struct when [calloc] returns NULL, instead of producing
    the zero-filled storage. *)
Lemma alloc_contract_counterexample :
  2 <= 3
  ∧ RingBuf.initialized (@RingBuf.rc_ringbuf_empty Z) = 0
  ∧ RingBuf.rc_ringbuf_alloc 0 false RingBuf.rc_ringbuf_empty 3
    = (-1, RingBuf.rc_ringbuf_empty)
  ∧ RingBuf.rc_ringbuf_alloc 0 false RingBuf.rc_ringbuf_empty 3
    ≠ (0, RingBuf.mk_ringbuf (Some [0; 0; 0]) 3 0 1)
  ∧ FifoBuf.initialized (@FifoBuf.rc_fifobuf_empty Z) = 0
  ∧ FifoBuf.rc_fifobuf_alloc 0 false FifoBuf.rc_fifobuf_empty 3
    = (-1, FifoBuf.rc_fifobuf_empty)
  ∧ FifoBuf.rc_fifobuf_alloc 0 false FifoBuf.rc_fifobuf_empty 3
    ≠ (0, FifoBuf.mk_fifobuf (Some [0; 0; 0]) 3 0 0 1).
Proof.
  split; [lia|]. repeat (split; [reflexivity || (by vm_compute)|]). by vm_compute.
Qed.

(** C8.  For both buffer types and every struct, the release returns 0 and
    leaves no storage, capacity 0, cursors 0 and the flag cleared; a second
    release of the result does the same. *)
Theorem release_idempotent :
  (∀ (T : Type) (b : RingBuf.rc_ringbuf_t T),
     RingBuf.rc_ringbuf_free b =
       (0, {| RingBuf.d := None; RingBuf.size := 0; RingBuf.index := 0;
              RingBuf.initialized := 0 |})
     ∧ RingBuf.rc_ringbuf_free (RingBuf.rc_ringbuf_free b).2 =
         (0, {| RingBuf.d := None; RingBuf.size := 0; RingBuf.index := 0;
                RingBuf.initialized := 0 |}))
  ∧ (∀ (T : Type) (b : FifoBuf.rc_fifobuf_t T),
       FifoBuf.rc_fifobuf_free b =
         (0, {| FifoBuf.d := None; FifoBuf.size := 0; FifoBuf.tail := 0;
                FifoBuf.available := 0; FifoBuf.initialized := 0 |})
       ∧ FifoBuf.rc_fifobuf_free (FifoBuf.rc_fifobuf_free b).2 =
           (0, {| FifoBuf.d := None; FifoBuf.size := 0; FifoBuf.tail := 0;
                  FifoBuf.available := 0; FifoBuf.initialized := 0 |})).
Proof. split; intros T b; split; reflexivity. Qed.

(** C9.  Once a ring buffer is allocated, [0 <= index < size] holds after
    every call of its API: after one call on a struct that satisfies the
    representation invariant, and hence in every struct that calls of the
    API produce from the empty struct.  In the same two senses an allocated
    fifo buffer has [0 <= available <= size] and [0 <= tail < size] after
    every call of its API. *)
Theorem invariants_preserved :
  (∀ (T : Type) (zero : T) (b b' : RingBuf.rc_ringbuf_t T),
     RingBuf.ringbuf_ok b = true → RingBuf.ringbuf_step zero b b' →
     RingBuf.initialized b' ≠ 0 →
     0 <= RingBuf.index b' < RingBuf.size b')
  ∧ (∀ (T : Type) (zero : T) (b : RingBuf.rc_ringbuf_t T),
       RingBuf.ringbuf_reachable zero b → RingBuf.initialized b ≠ 0 →
       0 <= RingBuf.index b < RingBuf.size b)
  ∧ (∀ (T : Type) (zero : T) (b b' : FifoBuf.rc_fifobuf_t T),
       FifoBuf.fifobuf_ok b = true → FifoBuf.fifobuf_step zero b b' →
       FifoBuf.initialized b' ≠ 0 →
       0 <= FifoBuf.available b' <= FifoBuf.size b'
       ∧ 0 <= FifoBuf.tail b' < FifoBuf.size b')
  ∧ (∀ (T : Type) (zero : T) (b : FifoBuf.rc_fifobuf_t T),
       FifoBuf.fifobuf_reachable zero b → FifoBuf.initialized b ≠ 0 →
       0 <= FifoBuf.available b <= FifoBuf.size b
       ∧ 0 <= FifoBuf.tail b < FifoBuf.size b).
Proof.
  assert (Hring : ∀ (T : Type) (b : RingBuf.rc_ringbuf_t T),
            RingBuf.ringbuf_ok b = true → RingBuf.initialized b ≠ 0 →
            0 <= RingBuf.index b < RingBuf.size b).
  { intros T b Hok Hinit.
    by destruct (ringbuf_ok_allocated b Hok Hinit) as (l & _ & _ & _ & Hidx). }
  assert (Hfifo : ∀ (T : Type) (b : FifoBuf.rc_fifobuf_t T),
            FifoBuf.fifobuf_ok b = true → FifoBuf.initialized b ≠ 0 →
            0 <= FifoBuf.available b <= FifoBuf.size b
            ∧ 0 <= FifoBuf.tail b < FifoBuf.size b).
  { intros T b Hok Hinit.
    by destruct (fifobuf_ok_allocated b Hok Hinit)
      as (l & _ & _ & _ & Htl & Hav & _). }
  split; [|split; [|split]].
  - intros T zero b b' Hok Hstep. apply Hring. by apply (ringbuf_step_ok zero b).
  - intros T zero b Hreach. apply Hring. by apply (reachable_ok zero).
  - intros T zero b b' Hok Hstep. apply Hfifo. by apply (fifobuf_step_ok zero b).
  - intros T zero b Hreach. apply Hfifo. by apply (fifo_reachable_ok zero).
Qed.

(** ** The ring buffer statements on the sample buffers *)

(** The contract of [rc_ringbuf_get_value] on the sample ring buffer at
    position 1. *)
Lemma get_value_contract_witness :
  RingBuf.ringbuf_ok Samples.ring_1234 = true
  ∧ (RingBuf.rc_ringbuf_get_value Samples.ring_1234 1 = Some (-1, None)
       ↔ RingBuf.initialized Samples.ring_1234 = 0 ∨ 1 < 0
         ∨ RingBuf.size Samples.ring_1234 - 1 < 1)
  ∧ (RingBuf.initialized Samples.ring_1234 ≠ 0 →
     0 <= 1 <= RingBuf.size Samples.ring_1234 - 1 →
     ∃ l v, RingBuf.d Samples.ring_1234 = Some l
            ∧ l !! Z.to_nat ((RingBuf.index Samples.ring_1234 - 1)
                             mod RingBuf.size Samples.ring_1234) = Some v
            ∧ RingBuf.rc_ringbuf_get_value Samples.ring_1234 1 = Some (0, Some v)).
Proof.
  split; [reflexivity|]. exact (get_value_contract Samples.ring_1234 1 eq_refl).
Defined.

(** An insert of 5 into the sample ring buffer. *)
Lemma insert_advances_then_writes_witness :
  RingBuf.ringbuf_ok Samples.ring_1234 = true
  ∧ RingBuf.initialized Samples.ring_1234 ≠ 0
  ∧ ∃ l, RingBuf.d Samples.ring_1234 = Some l ∧
      let cursor := (RingBuf.index Samples.ring_1234 + 1)
                    mod RingBuf.size Samples.ring_1234 in
      let b' := {| RingBuf.d := Some (<[Z.to_nat cursor := 5]> l);
                   RingBuf.size := RingBuf.size Samples.ring_1234;
                   RingBuf.index := cursor;
                   RingBuf.initialized := RingBuf.initialized Samples.ring_1234 |} in
      RingBuf.rc_ringbuf_insert Samples.ring_1234 5 = Some (0, b')
      ∧ RingBuf.rc_ringbuf_get_value b' 0 = Some (0, Some 5).
Proof.
  split; [reflexivity|]. split; [by vm_compute|].
  exact (insert_advances_then_writes Samples.ring_1234 5 eq_refl ltac:(by vm_compute)).
Defined.

(** A fresh ring buffer of capacity 3. *)
Lemma fresh_buffer_reads_zero_witness :
  2 <= 3 <= C.int_max
  ∧ (∃ b, RingBuf.rc_ringbuf_alloc 0 true RingBuf.rc_ringbuf_empty 3 = (0, b))
  ∧ (∀ served b, RingBuf.rc_ringbuf_alloc 0 served RingBuf.rc_ringbuf_empty 3 = (0, b) →
       RingBuf.rc_ringbuf_get_value b 0 = Some (0, Some 0)).
Proof.
  split; [by vm_compute|]. exact (fresh_buffer_reads_zero 0 3 ltac:(by vm_compute)).
Defined.

(** The frame of an insert of 5 into the sample ring buffer. *)
Lemma insert_frame_shift_witness :
  RingBuf.ringbuf_ok Samples.ring_1234 = true
  ∧ RingBuf.initialized Samples.ring_1234 ≠ 0
  ∧ ∃ l l' b',
      RingBuf.d Samples.ring_1234 = Some l
      ∧ RingBuf.rc_ringbuf_insert Samples.ring_1234 5 = Some (0, b')
      ∧ RingBuf.d b' = Some l'
      ∧ RingBuf.size b' = RingBuf.size Samples.ring_1234
      ∧ length l' = length l
      ∧ 0 <= RingBuf.index b' < RingBuf.size Samples.ring_1234
      ∧ l' !! Z.to_nat (RingBuf.index b') = Some 5
      ∧ (∀ i : nat, i ≠ Z.to_nat (RingBuf.index b') → l' !! i = l !! i)
      ∧ (∀ p, 0 <= p <= RingBuf.size Samples.ring_1234 - 2 →
           ∃ w, RingBuf.rc_ringbuf_get_value Samples.ring_1234 p = Some (0, Some w)
                ∧ RingBuf.rc_ringbuf_get_value b' (p + 1) = Some (0, Some w))
      ∧ RingBuf.rc_ringbuf_get_value b' 0 = Some (0, Some 5).
Proof.
  split; [reflexivity|]. split; [by vm_compute|].
  exact (insert_frame_shift Samples.ring_1234 5 eq_refl ltac:(by vm_compute)).
Defined.

(** The cursor bounds after an insert into the sample ring buffer, after a
    pop from the sample fifo, and in the buffers that one allocation of
    capacity 3 produces. *)
Lemma invariants_preserved_witness :
  (RingBuf.ringbuf_ok Samples.ring_1234 = true
   ∧ RingBuf.ringbuf_step 0 Samples.ring_1234 (RingBuf.mk_ringbuf (Some [3; 4; 5]) 3 2 1)
   ∧ RingBuf.initialized (RingBuf.mk_ringbuf (Some [3; 4; 5]) 3 2 1) ≠ 0
   ∧ 0 <= RingBuf.index (RingBuf.mk_ringbuf (Some [3; 4; 5]) 3 2 1)
       < RingBuf.size (RingBuf.mk_ringbuf (Some [3; 4; 5]) 3 2 1))
  ∧ (RingBuf.ringbuf_reachable 0 (RingBuf.mk_ringbuf (Some [0; 0; 0]) 3 0 1)
     ∧ RingBuf.initialized (RingBuf.mk_ringbuf (Some [0; 0; 0]) 3 0 1) ≠ 0
     ∧ 0 <= RingBuf.index (RingBuf.mk_ringbuf (Some [0; 0; 0]) 3 0 1)
         < RingBuf.size (RingBuf.mk_ringbuf (Some [0; 0; 0]) 3 0 1))
  ∧ (FifoBuf.fifobuf_ok Samples.fifo_23 = true
     ∧ FifoBuf.fifobuf_step 0 Samples.fifo_23 (FifoBuf.mk_fifobuf (Some [1; 2; 3]) 3 2 1 1)
     ∧ FifoBuf.initialized (FifoBuf.mk_fifobuf (Some [1; 2; 3]) 3 2 1 1) ≠ 0
     ∧ 0 <= FifoBuf.available (FifoBuf.mk_fifobuf (Some [1; 2; 3]) 3 2 1 1)
         <= FifoBuf.size (FifoBuf.mk_fifobuf (Some [1; 2; 3]) 3 2 1 1)
     ∧ 0 <= FifoBuf.tail (FifoBuf.mk_fifobuf (Some [1; 2; 3]) 3 2 1 1)
         < FifoBuf.size (FifoBuf.mk_fifobuf (Some [1; 2; 3]) 3 2 1 1))
  ∧ (FifoBuf.fifobuf_reachable 0 (FifoBuf.mk_fifobuf (Some [0; 0; 0]) 3 0 0 1)
     ∧ FifoBuf.initialized (FifoBuf.mk_fifobuf (Some [0; 0; 0]) 3 0 0 1) ≠ 0
     ∧ 0 <= FifoBuf.available (FifoBuf.mk_fifobuf (Some [0; 0; 0]) 3 0 0 1)
         <= FifoBuf.size (FifoBuf.mk_fifobuf (Some [0; 0; 0]) 3 0 0 1)
     ∧ 0 <= FifoBuf.tail (FifoBuf.mk_fifobuf (Some [0; 0; 0]) 3 0 0 1)
         < FifoBuf.size (FifoBuf.mk_fifobuf (Some [0; 0; 0]) 3 0 0 1)).
Proof.
  destruct invariants_preserved as (Hrs & Hrr & Hfs & Hfr).
  assert (Hint : C.is_int 3) by (by vm_compute).
  assert (Hins : RingBuf.ringbuf_step 0 Samples.ring_1234
                   (RingBuf.mk_ringbuf (Some [3; 4; 5]) 3 2 1)).
  { exact (RingBuf.rb_step_insert 0 Samples.ring_1234 5 0 _ eq_refl). }
  assert (Hring : RingBuf.ringbuf_reachable 0 (RingBuf.mk_ringbuf (Some [0; 0; 0]) 3 0 1)).
  { exact (RingBuf.rb_reach_step 0 _ _ (RingBuf.rb_reach_empty 0)
             (RingBuf.rb_step_alloc 0 true RingBuf.rc_ringbuf_empty 3 Hint)). }
  assert (Hpop : FifoBuf.fifobuf_step 0 Samples.fifo_23
                   (FifoBuf.mk_fifobuf (Some [1; 2; 3]) 3 2 1 1)).
  { exact (FifoBuf.fb_step_pop 0 Samples.fifo_23 (0, Some 2) _ eq_refl). }
  assert (Hfifo : FifoBuf.fifobuf_reachable 0 (FifoBuf.mk_fifobuf (Some [0; 0; 0]) 3 0 0 1)).
  { exact (FifoBuf.fb_reach_step 0 _ _ (FifoBuf.fb_reach_empty 0)
             (FifoBuf.fb_step_alloc 0 true FifoBuf.rc_fifobuf_empty 3 Hint)). }
  split; [|split; [|split]].
  - split; [reflexivity|]. split; [exact Hins|]. split; [by vm_compute|].
    exact (Hrs Z 0 Samples.ring_1234 _ eq_refl Hins ltac:(by vm_compute)).
  - split; [exact Hring|]. split; [by vm_compute|].
    exact (Hrr Z 0 _ Hring ltac:(by vm_compute)).
  - split; [reflexivity|]. split; [exact Hpop|]. split; [by vm_compute|].
    exact (Hfs Z 0 Samples.fifo_23 _ eq_refl Hpop ltac:(by vm_compute)).
  - split; [exact Hfifo|]. split; [by vm_compute|].
    exact (Hfr Z 0 _ Hfifo ltac:(by vm_compute)).
Defined.

(** * Further properties of the two headers *)

(** ** ring_buf.h: reset, the pointer lookback, longer runs of inserts *)

Section RingMore.
Import C RingBuf.
Context {T : Type}.
Variable zero : T.
Implicit Types (b : rc_ringbuf_t T) (l : list T) (v : T).

Lemma get_value_ptr_allocated b pos l :
  d b = Some l → Z.of_nat (length l) = size b → size b <= int_max →
  0 <= index b < size b → initialized b ≠ 0 → 0 <= pos < size b →
  rc_ringbuf_get_value_ptr b pos = Some (0, Some ((index b - pos) mod size b)).
Proof.
  intros Hd Hlen Hsz Hidx Hinit Hpos.
  pose proof (Z.mod_pos_bound (index b - pos) (size b)) as Hm.
  unfold rc_ringbuf_get_value_ptr.
  rewrite int_sub_small by (unfold int_min, int_max in *; lia).
  destruct (Z.ltb_spec pos 0); [lia|].
  destruct (Z.ltb_spec (size b - 1) pos); [lia|]. simpl.
  destruct (Z.eqb_spec (initialized b) 0) as [|_]; [done|].
  rewrite return_index_mod by (done || lia). rewrite Hd.
  unfold slot_addr. simpl. by rewrite in_bounds_true by lia.
Qed.

Lemma get_value_ptr_out_of_range b pos :
  ringbuf_ok b = true → initialized b = 0 ∨ pos < 0 ∨ size b - 1 < pos →
  rc_ringbuf_get_value_ptr b pos = Some (-1, None).
Proof.
  intros Hok Hfail. unfold rc_ringbuf_get_value_ptr.
  destruct (Z.eqb_spec (initialized b) 0) as [|Hinit].
  { by destruct (_ || _). }
  destruct (ringbuf_ok_allocated b Hok Hinit) as (l & _ & _ & Hsz & _).
  rewrite int_sub_small by (unfold int_min, int_max in *; lia).
  destruct Hfail as [|[|]]; [done| |].
  - by rewrite (proj2 (Z.ltb_lt pos 0)).
  - rewrite (proj2 (Z.ltb_lt (size b - 1) pos)) by done. by rewrite orb_true_r.
Qed.

(** X1.  On an allocated ring buffer [rc_ringbuf_reset] returns 0, fills
    the storage with zeros, puts the cursor on slot 0 and keeps the
    capacity; every lookback within the capacity then returns 0 with the
    zero value. *)
Theorem ringbuf_reset_contract b :
  ringbuf_ok b = true → initialized b ≠ 0 →
  let b' := {| d := Some (replicate (Z.to_nat (size b)) zero); size := size b;
               index := 0; initialized := initialized b |} in
  rc_ringbuf_reset zero b = Some (0, b')
  ∧ ∀ p, 0 <= p < size b → rc_ringbuf_get_value b' p = Some (0, Some zero).
Proof.
  intros Hok Hinit b'.
  destruct (ringbuf_ok_allocated b Hok Hinit) as (l & Hd & Hlen & Hsz & Hidx).
  split.
  - unfold rc_ringbuf_reset.
    destruct (Z.eqb_spec (initialized b) 0) as [|_]; [done|].
    by rewrite Hd, memset_zero_all.
  - intros p Hp.
    destruct (get_value_allocated b' p _ eq_refl) as (v & Hv & ->);
      simpl; rewrite ?length_replicate; try lia; try done.
    apply lookup_replicate_1 in Hv as [-> _]. done.
Qed.

(** X2.  On a buffer that satisfies the invariant, the pointer lookback
    fails exactly when the value lookback fails; when they succeed the
    pointer is the address of slot [(index - position) mod size] and that
    slot holds the value the value lookback returns. *)
Theorem get_value_ptr_agrees b position :
  ringbuf_ok b = true →
  (rc_ringbuf_get_value b position = Some (-1, None)
   ∧ rc_ringbuf_get_value_ptr b position = Some (-1, None))
  ∨ (∃ v, rc_ringbuf_get_value b position = Some (0, Some v)
          ∧ rc_ringbuf_get_value_ptr b position
            = Some (0, Some ((index b - position) mod size b))
          ∧ load (d b) ((index b - position) mod size b) = Some v).
Proof.
  intros Hok.
  destruct (decide (initialized b = 0 ∨ position < 0 ∨ size b - 1 < position))
    as [Hfail|Hin].
  - left. split; [by apply get_value_out_of_range|by apply get_value_ptr_out_of_range].
  - right. assert (Hinit : initialized b ≠ 0) by tauto.
    destruct (ringbuf_ok_allocated b Hok Hinit) as (l & Hd & Hlen & Hsz & Hidx).
    pose proof (Z.mod_pos_bound (index b - position) (size b)) as Hm.
    destruct (get_value_allocated b position l) as (v & Hv & Hget);
      try done; try lia.
    exists v. split; [done|].
    split; [apply (get_value_ptr_allocated b position l); done || lia|].
    rewrite Hd. apply load_in_bounds; [lia|done].
Qed.

(** X3.  After any run of inserts into an allocated ring buffer the
    capacity is unchanged, a lookback of [p] below the length of the run
    returns the value inserted [p] steps before the last one, and a
    lookback of [p] from the length of the run on returns what a lookback
    of [p] less that length returned before the run. *)
Theorem retention_after_inserts b vals :
  ringbuf_ok b = true → initialized b ≠ 0 →
  ∃ b', insert_all b vals = Some b'
        ∧ ringbuf_ok b' = true ∧ size b' = size b
        ∧ ∀ p, 0 <= p < size b →
            rc_ringbuf_get_value b' p =
              if p <? Z.of_nat (length vals)
              then Some (0, reverse vals !! Z.to_nat p)
              else rc_ringbuf_get_value b (p - Z.of_nat (length vals)).
Proof.
  intros Hok Hinit.
  destruct (insert_all_get vals b Hok Hinit) as (b' & Hall & Hok' & _ & Hsz & Hget).
  exists b'. split; [done|]. split; [done|]. split; [done|].
  intros p Hp. rewrite Hget by done.
  destruct (Z.ltb_spec p (Z.of_nat (length vals))); [|done].
  do 2 f_equal. rewrite reverse_lookup by lia. f_equal. lia.
Qed.

(** X4.  On a struct whose flag is clear (the initializer, a struct after
    [rc_ringbuf_free], a struct after an allocation that failed) every
    call that needs storage returns -1, for every value and position: reset
    and insert hand the struct back as it was, the two lookbacks write
    nothing. *)
Theorem ringbuf_unallocated_calls_fail b v position :
  initialized b = 0 →
  rc_ringbuf_reset zero b = Some (-1, b)
  ∧ rc_ringbuf_insert b v = Some (-1, b)
  ∧ rc_ringbuf_get_value b position = Some (-1, None)
  ∧ rc_ringbuf_get_value_ptr b position = Some (-1, None).
Proof.
  intros Hz.
  assert (Hok : ringbuf_ok b = true) by (unfold ringbuf_ok; by rewrite Hz).
  split; [unfold rc_ringbuf_reset; by rewrite Hz|].
  split; [unfold rc_ringbuf_insert; by rewrite Hz|].
  split; [by apply get_value_out_of_range; [|left]
         |by apply get_value_ptr_out_of_range; [|left]].
Qed.

(** X5.  In every struct that calls of the API produce from the empty
    struct, each of reset, insert and the two lookbacks has a defined
    result, for every value and every position: no call reads or writes
    outside the block. *)
Theorem ringbuf_calls_defined b v position :
  ringbuf_reachable zero b →
  is_Some (rc_ringbuf_reset zero b)
  ∧ is_Some (rc_ringbuf_insert b v)
  ∧ is_Some (rc_ringbuf_get_value b position)
  ∧ is_Some (rc_ringbuf_get_value_ptr b position).
Proof.
  intros Hok%reachable_ok.
  destruct (decide (initialized b = 0)) as [Hz|Hinit].
  - split; [unfold rc_ringbuf_reset; rewrite Hz; by eexists|].
    split; [unfold rc_ringbuf_insert; rewrite Hz; by eexists|].
    split; [rewrite get_value_out_of_range by auto; by eexists|].
    rewrite get_value_ptr_out_of_range by auto; by eexists.
  - destruct (ringbuf_ok_allocated b Hok Hinit) as (l & Hd & Hlen & Hsz & Hidx).
    split.
    { unfold rc_ringbuf_reset.
      destruct (Z.eqb_spec (initialized b) 0) as [|_]; [done|].
      rewrite Hd, memset_zero_all by done. by eexists. }
    split; [rewrite (insert_allocated b v l) by (done || lia); by eexists|].
    destruct (decide (position < 0 ∨ size b - 1 < position)) as [Hout|Hin].
    + split; [rewrite get_value_out_of_range by auto; by eexists|].
      rewrite get_value_ptr_out_of_range by auto; by eexists.
    + destruct (get_value_allocated b position l) as (w & _ & ->);
        try done; try lia.
      split; [by eexists|].
      rewrite (get_value_ptr_allocated b position l) by (done || lia). by eexists.
Qed.

(** X6.  An allocation that returned 0 is not repeated: a second call with
    the same capacity returns 0 and hands the struct back as the first
    left it, whatever the allocator would answer. *)
Theorem ringbuf_alloc_idempotent served served' b b1 c :
  rc_ringbuf_alloc zero served b c = (0, b1) →
  rc_ringbuf_alloc zero served' b1 c = (0, b1).
Proof.
  unfold rc_ringbuf_alloc. destruct (Z.ltb_spec c 2); [by intros [=]|].
  destruct (negb (initialized b =? 0) && (size b =? c)
            && bool_decide (is_Some (d b))) eqn:Hcond.
  - intros [= <-]. by rewrite Hcond.
  - destruct served; simpl; intros [= <-]. simpl.
    by rewrite Z.eqb_refl.
Qed.

End RingMore.

(** ** fifo_buf.h: the unread entries as a queue *)

Section FifoMore.
Import C FifoBuf.
Context {T : Type}.
Variable zero : T.
Implicit Types (b : rc_fifobuf_t T) (l : list T) (v : T).

(** Two starts in the same residue class read the same window. *)
Lemma window_mod_eq l sz n : ∀ s1 s2,
  0 < sz → s1 mod sz = s2 mod sz → window l sz s1 n = window l sz s2 n.
Proof.
  induction n as [|n IH]; intros s1 s2 Hsz Heq; [done|].
  simpl. rewrite Heq. destruct (l !! _); [|done]. f_equal.
  apply IH; [done|].
  by rewrite (Z.add_mod s1), (Z.add_mod s2), Heq by lia.
Qed.

Lemma window_snoc l sz n : ∀ s x,
  Z.of_nat (length l) = sz → 0 < sz →
  l !! Z.to_nat ((s + Z.of_nat n) mod sz) = Some x →
  window l sz s (S n) = window l sz s n ++ [x].
Proof.
  induction n as [|n IH]; intros s x Hlen Hsz Hx.
  - simpl in *. rewrite Z.add_0_r in Hx. by rewrite Hx.
  - pose proof (Z.mod_pos_bound s sz Hsz) as Hm.
    destruct (lookup_in_bounds l (s mod sz)) as [v0 Hv0]; [lia|].
    change (window l sz s (S (S n)))
      with (match l !! Z.to_nat (s mod sz) with
            | Some v => v :: window l sz (s + 1) (S n)
            | None => []
            end).
    change (window l sz s (S n))
      with (match l !! Z.to_nat (s mod sz) with
            | Some v => v :: window l sz (s + 1) n
            | None => []
            end).
    rewrite Hv0. rewrite (IH (s + 1) x); [done|done|done|].
    rewrite <- Hx. do 3 f_equal. lia.
Qed.

(** A write to a slot that the window does not pass leaves it as it was. *)
Lemma window_insert_other l sz i v n : ∀ s,
  0 <= i → 0 < sz →
  (∀ j : nat, (j < n)%nat → (s + Z.of_nat j) mod sz ≠ i) →
  window (<[Z.to_nat i := v]> l) sz s n = window l sz s n.
Proof.
  induction n as [|n IH]; intros s Hi Hsz Hne; [done|].
  simpl. pose proof (Z.mod_pos_bound s sz Hsz) as Hm.
  rewrite list_lookup_insert_ne.
  - destruct (l !! _); [|done]. f_equal. apply IH; [done|done|].
    intros j Hj. specialize (Hne (S j) ltac:(lia)).
    by replace (s + 1 + Z.of_nat j) with (s + Z.of_nat (S j)) by lia.
  - specialize (Hne 0%nat ltac:(lia)). rewrite Z.add_0_r in Hne.
    intros Heq%Z2Nat.inj; [congruence|lia|lia].
Qed.

(** Two offsets less than a lap apart land on different slots. *)
Lemma slots_distinct t j a sz :
  0 <= j < a → a < sz → (t + j) mod sz ≠ (t + a) mod sz.
Proof.
  intros Hj Ha Heq.
  assert (Hz : ((t + a) - (t + j)) mod sz = 0).
  { rewrite Zminus_mod, Heq, Z.sub_diag. apply Z.mod_0_l. lia. }
  replace (t + a - (t + j)) with (a - j) in Hz by lia.
  rewrite Z.mod_small in Hz; lia.
Qed.

(** The unread entries after a push: the former ones, then the new one. *)
Lemma push_window l sz t a v :
  Z.of_nat (length l) = sz → 0 <= a < sz →
  window (<[Z.to_nat ((t + a) mod sz) := v]> l) sz t (S (Z.to_nat a))
  = window l sz t (Z.to_nat a) ++ [v].
Proof.
  intros Hlen Ha.
  pose proof (Z.mod_pos_bound (t + a) sz ltac:(lia)) as Hm.
  rewrite (window_snoc _ sz (Z.to_nat a) t v).
  - f_equal. apply window_insert_other; [lia|lia|].
    intros j Hj. apply slots_distinct; lia.
  - by rewrite length_insert.
  - lia.
  - rewrite Z2Nat.id by lia. apply list_lookup_insert_eq. lia.
Qed.

(** Popping all unread entries returns them in window order. *)
Lemma pop_n_window n : ∀ b l,
  fifobuf_ok b = true → initialized b ≠ 0 → d b = Some l →
  Z.of_nat n = available b →
  ∃ b', pop_n n b = Some (window l (size b) (tail b) n, b')
        ∧ fifobuf_ok b' = true ∧ available b' = 0 ∧ d b' = d b
        ∧ size b' = size b ∧ initialized b' = initialized b.
Proof.
  induction n as [|n IH]; intros b l Hok Hinit Hd Hav.
  - exists b. by repeat split.
  - destruct (fifobuf_ok_allocated b Hok Hinit)
      as (l' & Hd' & Hlen & Hsz & Htl & Ha & Hsum).
    assert (l' = l) as -> by congruence.
    destruct (pop_defined b l) as (v & Hv & Hpop); try done; try lia.
    set (b1 := mk_fifobuf (d b) (size b) ((tail b + 1) mod size b)
                 (available b - 1) (initialized b)) in *.
    assert (Hok1 : fifobuf_ok b1 = true) by (apply (popped_ok b l); done || lia).
    destruct (IH b1 l Hok1 Hinit Hd ltac:(simpl; lia))
      as (b' & Hrest & Hok' & Hav' & Hd1 & Hsz1 & Hinit1).
    exists b'. split; [|by repeat split].
    change (pop_n (S n) b)
      with (r ← rc_fifobuf_pop b; rest ← pop_n n r.2;
            Some (match r.1.2 with Some v => v :: rest.1 | None => rest.1 end,
                  rest.2)).
    rewrite Hpop. simpl. rewrite Hrest. simpl.
    rewrite (Z.mod_small (tail b)) by lia. rewrite Hv. do 3 f_equal.
    apply window_mod_eq; [lia|]. by rewrite Z.mod_mod by lia.
Qed.

(** X7.  On an allocated fifo buffer a push that returns 0 puts its value
    behind all unread entries: popping everything afterwards returns the
    values that popping everything before the push would have returned,
    in the same order, followed by the pushed value. *)
Theorem push_joins_the_back b v b' :
  fifobuf_ok b = true → initialized b ≠ 0 →
  rc_fifobuf_push b v = Some (0, b') →
  ∃ vs b1 b2,
    pop_n (Z.to_nat (available b)) b = Some (vs, b1)
    ∧ pop_n (Z.to_nat (available b')) b' = Some (vs ++ [v], b2).
Proof.
  intros Hok Hinit Hpush.
  assert (Hok' : fifobuf_ok b' = true).
  { apply (fifobuf_step_ok zero b); [done|]. by eapply fb_step_push. }
  destruct (fifobuf_ok_allocated b Hok Hinit)
    as (l & Hd & Hlen & Hsz & Htl & Ha & Hsum).
  destruct (decide (available b = size b)) as [Hfull|Hroom].
  { by rewrite push_full in Hpush. }
  destruct (push_effect b v b' Hok Hinit Hpush) as (l' & Hd' & ->).
  assert (l' = l) as -> by congruence.
  destruct (pop_n_window (Z.to_nat (available b)) b l)
    as (b1 & Hpop & _); try done; try lia.
  set (bp := mk_fifobuf _ _ _ _ _) in *.
  destruct (pop_n_window (Z.to_nat (available bp)) bp _ Hok' Hinit eq_refl)
    as (b2 & Hpop' & _); [simpl; lia|].
  eexists _, b1, b2. split; [done|]. rewrite Hpop'. do 2 f_equal.
  simpl. replace (Z.to_nat (available b + 1)) with (S (Z.to_nat (available b))) by lia.
  apply push_window; [done|lia].
Qed.

Lemma available_allocated b :
  initialized b ≠ 0 → rc_fifobuf_available b = available b.
Proof.
  intros Hinit. unfold rc_fifobuf_available.
  by destruct (Z.eqb_spec (initialized b) 0).
Qed.

(** A run of pushes fills the room that is left and drops the rest. *)
Lemma push_all_window vals : ∀ b l,
  fifobuf_ok b = true → initialized b ≠ 0 → d b = Some l →
  size b <= 1073741824 →
  ∃ b' l', push_all b vals = Some b'
    ∧ fifobuf_ok b' = true ∧ initialized b' = initialized b ∧ d b' = Some l'
    ∧ size b' = size b ∧ tail b' = tail b
    ∧ available b' = Z.min (size b) (available b + Z.of_nat (length vals))
    ∧ window l' (size b) (tail b) (Z.to_nat (available b'))
      = window l (size b) (tail b) (Z.to_nat (available b))
        ++ take (Z.to_nat (size b - available b)) vals.
Proof.
  induction vals as [|v vals IH]; intros b l Hok Hinit Hd Hcap;
    destruct (fifobuf_ok_allocated b Hok Hinit)
      as (l0 & Hd0 & Hlen & Hsz & Htl & Ha & Hsum);
    assert (l0 = l) as -> by congruence.
  - exists b, l. repeat (split; [done|]). split; [simpl; lia|].
    by rewrite take_nil, app_nil_r.
  - destruct (decide (available b = size b)) as [Hfull|Hroom].
    + destruct (IH b l Hok Hinit Hd Hcap)
        as (b' & l' & Hall & Hok' & Hinit' & Hd' & Hsz' & Htl' & Hav' & Hwin).
      exists b', l'. split; [by simpl; rewrite push_full|].
      repeat (split; [done|]). split; [cbn [length]; lia|].
      rewrite Hwin. replace (size b - available b) with 0 by lia. done.
    + set (l1 := <[Z.to_nat ((tail b + available b) mod size b) := v]> l).
      set (b1 := mk_fifobuf (Some l1) (size b) (tail b) (available b + 1)
                   (initialized b)).
      assert (Hpush : rc_fifobuf_push b v = Some (0, b1)).
      { apply (push_defined b v l); try done; unfold int_max; lia. }
      assert (Hok1 : fifobuf_ok b1 = true).
      { apply (fifobuf_step_ok zero b); [done|]. by eapply fb_step_push. }
      destruct (IH b1 l1 Hok1 Hinit eq_refl Hcap)
        as (b' & l' & Hall & Hok' & Hinit' & Hd' & Hsz' & Htl' & Hav' & Hwin).
      exists b', l'. split; [by simpl; rewrite Hpush|].
      repeat (split; [done|]). split; [simpl in *; cbn [length]; lia|].
      simpl in Hwin. rewrite Hwin.
      replace (Z.to_nat (available b + 1)) with (S (Z.to_nat (available b))) by lia.
      unfold l1. rewrite push_window by (done || lia).
      replace (Z.to_nat (size b - available b))
        with (S (Z.to_nat (size b - (available b + 1)))) by lia.
      by rewrite <- app_assoc.
Qed.

(** X8.  On an allocated fifo buffer of at most 2^30 slots, a run of pushes
    followed by pops of everything delivers first what was unread before
    the run, then the pushed values in the order of the pushes, as far as
    there was room for them: the values for which no room was left are
    dropped, and [rc_fifobuf_available] never exceeds the capacity. *)
Theorem fifo_delivers_in_order b vals :
  fifobuf_ok b = true → initialized b ≠ 0 → size b <= 1073741824 →
  ∃ old b0 b1 b2,
    pop_n (Z.to_nat (available b)) b = Some (old, b0)
    ∧ push_all b vals = Some b1
    ∧ rc_fifobuf_available b1
      = Z.min (size b) (available b + Z.of_nat (length vals))
    ∧ pop_n (Z.to_nat (rc_fifobuf_available b1)) b1
      = Some (old ++ take (Z.to_nat (size b - available b)) vals, b2)
    ∧ rc_fifobuf_available b2 = 0.
Proof.
  intros Hok Hinit Hcap.
  destruct (fifobuf_ok_allocated b Hok Hinit)
    as (l & Hd & Hlen & Hsz & Htl & Ha & Hsum).
  destruct (pop_n_window (Z.to_nat (available b)) b l)
    as (b0 & Hpop & _); try done; try lia.
  destruct (push_all_window vals b l Hok Hinit Hd Hcap)
    as (b1 & l1 & Hall & Hok1 & Hinit1 & Hd1 & Hsz1 & Htl1 & Hav1 & Hwin).
  assert (Hinit1' : initialized b1 ≠ 0) by congruence.
  destruct (pop_n_window (Z.to_nat (available b1)) b1 l1)
    as (b2 & Hpop1 & _ & Hav2 & _ & _ & Hinit2); try done; try lia.
  exists (window l (size b) (tail b) (Z.to_nat (available b))), b0, b1, b2.
  rewrite (available_allocated b1), (available_allocated b2) by congruence.
  split; [done|]. split; [done|]. split; [done|]. split; [|done].
  by rewrite Hpop1, Hsz1, Htl1, Hwin.
Qed.

Lemma pop_ptr_empty b :
  initialized b = 0 ∨ available b = 0 → rc_fifobuf_pop_ptr b = Some (-1, None, b).
Proof.
  intros Hfail. unfold rc_fifobuf_pop_ptr.
  destruct (Z.eqb_spec (initialized b) 0); [done|].
  destruct Hfail as [ | -> ]; done.
Qed.

Lemma pop_fails b :
  initialized b = 0 ∨ available b = 0 → rc_fifobuf_pop b = Some (-1, None, b).
Proof.
  intros Hfail. unfold rc_fifobuf_pop.
  destruct (Z.eqb_spec (initialized b) 0); [done|].
  destruct Hfail as [ | -> ]; done.
Qed.

(** X9.  On a buffer that satisfies the invariant, the pointer pop fails
    exactly when the value pop fails, both handing the struct back as it
    was; when they succeed they leave the same struct, the pointer is the
    address of slot [tail] and that slot holds the value the value pop
    returns. *)
Theorem pop_ptr_agrees b :
  fifobuf_ok b = true →
  (rc_fifobuf_pop b = Some (-1, None, b)
   ∧ rc_fifobuf_pop_ptr b = Some (-1, None, b))
  ∨ (∃ v b', rc_fifobuf_pop b = Some (0, Some v, b')
             ∧ rc_fifobuf_pop_ptr b = Some (0, Some (tail b), b')
             ∧ load (d b) (tail b) = Some v).
Proof.
  intros Hok.
  destruct (decide (initialized b = 0 ∨ available b = 0)) as [Hfail|Hsome].
  - left. split; [by apply pop_fails|by apply pop_ptr_empty].
  - right. assert (Hinit : initialized b ≠ 0) by tauto.
    destruct (fifobuf_ok_allocated b Hok Hinit)
      as (l & Hd & Hlen & Hsz & Htl & Ha & Hsum).
    destruct (pop_defined b l) as (v & Hv & Hpop); try done; try lia.
    eexists v, _. split; [done|].
    split; [apply (pop_ptr_defined b l); done || lia|].
    rewrite Hd. apply load_in_bounds; [lia|done].
Qed.

(** X10.  The slot whose address a pointer pop returned is the slot the
    next push writes exactly when the buffer was full before the pop: the
    pointed slot then holds the pushed value, and otherwise it still
    holds what it held. *)
Theorem pop_ptr_slot_reused b a b1 v b2 :
  fifobuf_ok b = true →
  rc_fifobuf_pop_ptr b = Some (0, Some a, b1) →
  rc_fifobuf_push b1 v = Some (0, b2) →
  (available b = size b → load (d b2) a = Some v)
  ∧ (available b ≠ size b → load (d b2) a = load (d b) a).
Proof.
  intros Hok Hpop Hpush.
  destruct (decide (initialized b = 0 ∨ available b = 0)) as [Hfail|Hsome].
  { by rewrite pop_ptr_empty in Hpop. }
  assert (Hinit : initialized b ≠ 0) by tauto.
  destruct (fifobuf_ok_allocated b Hok Hinit)
    as (l & Hd & Hlen & Hsz & Htl & Ha & Hsum).
  rewrite (pop_ptr_defined b l) in Hpop by (done || lia).
  injection Hpop as <- <-.
  set (b1 := mk_fifobuf _ _ _ _ _) in *.
  assert (Hok1 : fifobuf_ok b1 = true) by (apply (popped_ok b l); done || lia).
  destruct (push_effect b1 v b2 Hok1 Hinit Hpush) as (l1 & Hd1 & ->).
  simpl in Hd1. assert (l1 = l) as -> by congruence. simpl.
  rewrite Zplus_mod_idemp_l.
  replace (tail b + 1 + (available b - 1)) with (tail b + available b) by lia.
  rewrite Hd. unfold load. simpl.
  rewrite !in_bounds_true by (rewrite ?length_insert; lia).
  split.
  - intros Hfull. rewrite Hfull.
    rewrite <- (Z.mul_1_l (size b)) at 1. rewrite Z.mod_add by lia.
    rewrite Z.mod_small by lia. apply list_lookup_insert_eq. lia.
  - intros Hroom. apply list_lookup_insert_ne.
    intros Heq%Z2Nat.inj; [|apply Z.mod_pos_bound; lia|lia].
    apply (slots_distinct (tail b) 0 (available b) (size b)); [lia|lia|].
    by rewrite Z.add_0_r, (Z.mod_small (tail b)) by lia.
Qed.

(** X11.  On a buffer that satisfies the invariant [rc_fifobuf_available]
    returns -1 exactly when the buffer is not allocated; on an allocated
    buffer it returns a count between 0 and the capacity. *)
Theorem available_sentinel b :
  fifobuf_ok b = true →
  (rc_fifobuf_available b = -1 ↔ initialized b = 0)
  ∧ (initialized b ≠ 0 → 0 <= rc_fifobuf_available b <= size b).
Proof.
  intros Hok. unfold rc_fifobuf_available.
  destruct (Z.eqb_spec (initialized b) 0) as [Hz|Hinit]; [done|].
  destruct (fifobuf_ok_allocated b Hok Hinit) as (l & _ & _ & _ & _ & Ha & _).
  split; [|done]. split; [lia|done].
Qed.

(** X12.  In every struct of at most 2^30 slots that calls of the API
    produce from the empty struct, each of reset, push, pop and pointer pop
    has a defined result: no call reads or writes outside the block.  A
    push into an allocated buffer then returns 0 unless the buffer is
    full. *)
Theorem fifobuf_calls_defined b v :
  fifobuf_reachable zero b → size b <= 1073741824 →
  is_Some (rc_fifobuf_reset zero b)
  ∧ is_Some (rc_fifobuf_push b v)
  ∧ is_Some (rc_fifobuf_pop b)
  ∧ is_Some (rc_fifobuf_pop_ptr b)
  ∧ (initialized b ≠ 0 → available b ≠ size b →
       ∃ b', rc_fifobuf_push b v = Some (0, b')).
Proof.
  intros Hok%fifo_reachable_ok Hcap.
  destruct (decide (initialized b = 0)) as [Hz|Hinit].
  - split; [unfold rc_fifobuf_reset; rewrite Hz; by eexists|].
    split; [unfold rc_fifobuf_push; rewrite Hz; by eexists|].
    split; [rewrite pop_fails by auto; by eexists|].
    split; [rewrite pop_ptr_empty by auto; by eexists|done].
  - destruct (fifobuf_ok_allocated b Hok Hinit)
      as (l & Hd & Hlen & Hsz & Htl & Ha & Hsum).
    assert (Hpush : available b ≠ size b →
              ∃ b', rc_fifobuf_push b v = Some (0, b')).
    { intros Hroom. eexists.
      apply (push_defined b v l); try done; unfold int_max; lia. }
    split.
    { unfold rc_fifobuf_reset.
      destruct (Z.eqb_spec (initialized b) 0) as [|_]; [done|].
      rewrite Hd, memset_zero_all by done. by eexists. }
    split.
    { destruct (decide (available b = size b)) as [Hfull|Hroom].
      - rewrite push_full by done. by eexists.
      - destruct (Hpush Hroom) as (b' & ->). by eexists. }
    split; [|split; [|auto]].
    + destruct (decide (available b = 0)) as [Hempty|Hsome].
      * rewrite pop_fails by auto. by eexists.
      * destruct (pop_defined b l) as (w & _ & ->); try done; try lia.
    + destruct (decide (available b = 0)) as [Hempty|Hsome].
      * rewrite pop_ptr_empty by auto. by eexists.
      * rewrite (pop_ptr_defined b l) by (done || lia). by eexists.
Qed.

(** X13.  On an allocated buffer that is not full, when [tail + available]
    is one more than [INT_MAX] the sum wraps, the slot index that
    [rc_fifobuf_push] computes is negative, and the push has no defined
    result: its write would land before the block.  Such a buffer has
    more than 2^30 slots. *)
Theorem push_index_overflow b v :
  2 <= size b <= int_max → 0 <= tail b < size b →
  0 <= available b < size b → initialized b ≠ 0 →
  tail b + available b = int_max + 1 →
  1073741824 < size b
  ∧ int_rem (int_add (tail b) (available b)) (size b)
    = Some (size b - 2147483648)
  ∧ size b - 2147483648 < 0
  ∧ rc_fifobuf_push b v = None.
Proof.
  intros Hsz Htl Ha Hinit Hsum. unfold int_max in *.
  split; [lia|]. split; [|split; [lia|apply push_overflow; unfold int_max; lia]].
  unfold int_add. rewrite Hsum.
  change (wrap (2147483647 + 1)) with (Z.opp 2147483648).
  unfold int_rem.
  destruct (Z.eqb_spec (size b) 0); [lia|].
  destruct (Z.eqb_spec (size b) (-1)); [lia|]. rewrite andb_false_r. simpl.
  rewrite Z.rem_opp_l by lia. rewrite Z.rem_mod_nonneg by lia.
  rewrite <- (Z.mod_unique 2147483648 (size b) 1 (2147483648 - size b)) by lia.
  f_equal. lia.
Qed.

(** X14.  On a struct whose flag is clear (the initializer, a struct
    after [rc_fifobuf_free], a struct after an allocation that failed)
    every call that needs storage returns -1: reset, push and the two pops
    hand the struct back as it was and write nothing, and
    [rc_fifobuf_available] returns -1. *)
Theorem fifobuf_unallocated_calls_fail b v :
  initialized b = 0 →
  rc_fifobuf_reset zero b = Some (-1, b)
  ∧ rc_fifobuf_push b v = Some (-1, b)
  ∧ rc_fifobuf_pop b = Some (-1, None, b)
  ∧ rc_fifobuf_pop_ptr b = Some (-1, None, b)
  ∧ rc_fifobuf_available b = -1.
Proof.
  intros Hz.
  split; [unfold rc_fifobuf_reset; by rewrite Hz|].
  split; [unfold rc_fifobuf_push; by rewrite Hz|].
  split; [by apply pop_fails; left|]. split; [by apply pop_ptr_empty; left|].
  unfold rc_fifobuf_available. by rewrite Hz.
Qed.

(** X15.  On an allocated fifo buffer [rc_fifobuf_reset] returns 0, fills
    the storage with zeros and sets [tail] and [available] to 0, keeping
    the capacity; the buffer is then empty (a pop returns -1), and a value
    pushed next is the value the pop after it returns. *)
Theorem fifobuf_reset_contract b :
  fifobuf_ok b = true → initialized b ≠ 0 →
  let b' := {| d := Some (replicate (Z.to_nat (size b)) zero); size := size b;
               tail := 0; available := 0; initialized := initialized b |} in
  rc_fifobuf_reset zero b = Some (0, b')
  ∧ rc_fifobuf_available b' = 0
  ∧ rc_fifobuf_pop b' = Some (-1, None, b')
  ∧ ∀ v, ∃ b1 b2, rc_fifobuf_push b' v = Some (0, b1)
                  ∧ rc_fifobuf_pop b1 = Some (0, Some v, b2)
                  ∧ rc_fifobuf_available b2 = 0.
Proof.
  intros Hok Hinit b'.
  destruct (fifobuf_ok_allocated b Hok Hinit)
    as (l & Hd & Hlen & Hsz & Htl & Ha & Hsum).
  split.
  { unfold rc_fifobuf_reset.
    destruct (Z.eqb_spec (initialized b) 0) as [|_]; [done|].
    by rewrite Hd, memset_zero_all. }
  split; [by rewrite available_allocated|]. split; [by apply pop_fails; right|].
  intros v.
  assert (Hl : Z.of_nat (length (replicate (Z.to_nat (size b)) zero)) = size b)
    by (rewrite length_replicate; lia).
  eexists _, _. split.
  { apply (push_defined b' v _ eq_refl); simpl; try done; unfold int_max in *; lia. }
  simpl. rewrite Z.mod_0_l by lia.
  set (b1 := mk_fifobuf _ _ _ _ _).
  destruct (pop_defined b1 _ eq_refl) as (w & Hw & ->);
    simpl; rewrite ?length_insert; try done; try lia.
  simpl in Hw. rewrite list_lookup_insert_eq in Hw by lia. injection Hw as <-.
  split; [done|]. by rewrite available_allocated.
Qed.

(** X16.  An allocation that returned 0 is not repeated: a second call with
    the same capacity returns 0 and hands the struct back as the first
    left it, unread entries included, whatever the allocator would
    answer. *)
Theorem fifobuf_alloc_idempotent served served' b b1 c :
  rc_fifobuf_alloc zero served b c = (0, b1) →
  rc_fifobuf_alloc zero served' b1 c = (0, b1).
Proof.
  unfold rc_fifobuf_alloc. destruct (Z.ltb_spec c 2); [by intros [=]|].
  destruct (negb (initialized b =? 0) && (size b =? c)
            && bool_decide (is_Some (d b))) eqn:Hcond.
  - intros [= <-]. by rewrite Hcond.
  - destruct served; simpl; intros [= <-]. simpl.
    by rewrite Z.eqb_refl.
Qed.

End FifoMore.

(** ** The further properties on the sample buffers *)

(** A reset of the sample ring buffer. *)
Lemma ringbuf_reset_contract_witness :
  RingBuf.ringbuf_ok Samples.ring_1234 = true
  ∧ RingBuf.initialized Samples.ring_1234 ≠ 0
  ∧ (let b' := RingBuf.mk_ringbuf
                 (Some (replicate (Z.to_nat (RingBuf.size Samples.ring_1234)) 0))
                 (RingBuf.size Samples.ring_1234) 0
                 (RingBuf.initialized Samples.ring_1234) in
     RingBuf.rc_ringbuf_reset 0 Samples.ring_1234 = Some (0, b')
     ∧ ∀ p, 0 <= p < RingBuf.size Samples.ring_1234 →
            RingBuf.rc_ringbuf_get_value b' p = Some (0, Some 0)).
Proof.
  split; [reflexivity|]. split; [by vm_compute|].
  exact (ringbuf_reset_contract 0 Samples.ring_1234 eq_refl ltac:(by vm_compute)).
Defined.

(** The two lookbacks on the sample ring buffer at position 2. *)
Lemma get_value_ptr_agrees_witness :
  RingBuf.ringbuf_ok Samples.ring_1234 = true
  ∧ ((RingBuf.rc_ringbuf_get_value Samples.ring_1234 2 = Some (-1, None)
      ∧ RingBuf.rc_ringbuf_get_value_ptr Samples.ring_1234 2 = Some (-1, None))
     ∨ (∃ v, RingBuf.rc_ringbuf_get_value Samples.ring_1234 2 = Some (0, Some v)
             ∧ RingBuf.rc_ringbuf_get_value_ptr Samples.ring_1234 2
               = Some (0, Some ((RingBuf.index Samples.ring_1234 - 2)
                                mod RingBuf.size Samples.ring_1234))
             ∧ C.load (RingBuf.d Samples.ring_1234)
                 ((RingBuf.index Samples.ring_1234 - 2)
                  mod RingBuf.size Samples.ring_1234) = Some v)).
Proof.
  split; [reflexivity|]. exact (get_value_ptr_agrees Samples.ring_1234 2 eq_refl).
Defined.

(** Two more inserts into the sample ring buffer. *)
Lemma retention_after_inserts_witness :
  RingBuf.ringbuf_ok Samples.ring_1234 = true
  ∧ RingBuf.initialized Samples.ring_1234 ≠ 0
  ∧ ∃ b', RingBuf.insert_all Samples.ring_1234 [5; 6] = Some b'
          ∧ RingBuf.ringbuf_ok b' = true
          ∧ RingBuf.size b' = RingBuf.size Samples.ring_1234
          ∧ ∀ p, 0 <= p < RingBuf.size Samples.ring_1234 →
              RingBuf.rc_ringbuf_get_value b' p =
                if p <? Z.of_nat (length [5; 6])
                then Some (0, reverse [5; 6] !! Z.to_nat p)
                else RingBuf.rc_ringbuf_get_value Samples.ring_1234
                       (p - Z.of_nat (length [5; 6])).
Proof.
  split; [reflexivity|]. split; [by vm_compute|].
  exact (retention_after_inserts Samples.ring_1234 [5; 6] eq_refl
           ltac:(by vm_compute)).
Defined.

(** The calls on a fresh ring buffer of capacity 3. *)
Lemma ringbuf_calls_defined_witness :
  RingBuf.ringbuf_reachable 0 (RingBuf.mk_ringbuf (Some [0; 0; 0]) 3 0 1)
  ∧ is_Some (RingBuf.rc_ringbuf_reset 0 (RingBuf.mk_ringbuf (Some [0; 0; 0]) 3 0 1))
  ∧ is_Some (RingBuf.rc_ringbuf_insert (RingBuf.mk_ringbuf (Some [0; 0; 0]) 3 0 1) 7)
  ∧ is_Some (RingBuf.rc_ringbuf_get_value (RingBuf.mk_ringbuf (Some [0; 0; 0]) 3 0 1) 5)
  ∧ is_Some (RingBuf.rc_ringbuf_get_value_ptr
               (RingBuf.mk_ringbuf (Some [0; 0; 0]) 3 0 1) 5).
Proof.
  assert (Hint : C.is_int 3) by (by vm_compute).
  assert (Hring : RingBuf.ringbuf_reachable 0 (RingBuf.mk_ringbuf (Some [0; 0; 0]) 3 0 1)).
  { exact (RingBuf.rb_reach_step 0 _ _ (RingBuf.rb_reach_empty 0)
             (RingBuf.rb_step_alloc 0 true RingBuf.rc_ringbuf_empty 3 Hint)). }
  split; [exact Hring|]. exact (ringbuf_calls_defined 0 _ 7 5 Hring).
Defined.

(** The calls on the sample ring buffer after its release. *)
Lemma ringbuf_unallocated_calls_fail_witness :
  RingBuf.initialized (RingBuf.rc_ringbuf_free Samples.ring_1234).2 = 0
  ∧ RingBuf.rc_ringbuf_reset 0 (RingBuf.rc_ringbuf_free Samples.ring_1234).2
    = Some (-1, (RingBuf.rc_ringbuf_free Samples.ring_1234).2)
  ∧ RingBuf.rc_ringbuf_insert (RingBuf.rc_ringbuf_free Samples.ring_1234).2 7
    = Some (-1, (RingBuf.rc_ringbuf_free Samples.ring_1234).2)
  ∧ RingBuf.rc_ringbuf_get_value (RingBuf.rc_ringbuf_free Samples.ring_1234).2 0
    = Some (-1, None)
  ∧ RingBuf.rc_ringbuf_get_value_ptr (RingBuf.rc_ringbuf_free Samples.ring_1234).2 0
    = Some (-1, None).
Proof.
  split; [reflexivity|].
  exact (ringbuf_unallocated_calls_fail 0
           (RingBuf.rc_ringbuf_free Samples.ring_1234).2 7 0 eq_refl).
Defined.

(** The calls on the sample fifo after its release. *)
Lemma fifobuf_unallocated_calls_fail_witness :
  FifoBuf.initialized (FifoBuf.rc_fifobuf_free Samples.fifo_23).2 = 0
  ∧ FifoBuf.rc_fifobuf_reset 0 (FifoBuf.rc_fifobuf_free Samples.fifo_23).2
    = Some (-1, (FifoBuf.rc_fifobuf_free Samples.fifo_23).2)
  ∧ FifoBuf.rc_fifobuf_push (FifoBuf.rc_fifobuf_free Samples.fifo_23).2 7
    = Some (-1, (FifoBuf.rc_fifobuf_free Samples.fifo_23).2)
  ∧ FifoBuf.rc_fifobuf_pop (FifoBuf.rc_fifobuf_free Samples.fifo_23).2
    = Some (-1, None, (FifoBuf.rc_fifobuf_free Samples.fifo_23).2)
  ∧ FifoBuf.rc_fifobuf_pop_ptr (FifoBuf.rc_fifobuf_free Samples.fifo_23).2
    = Some (-1, None, (FifoBuf.rc_fifobuf_free Samples.fifo_23).2)
  ∧ FifoBuf.rc_fifobuf_available (FifoBuf.rc_fifobuf_free Samples.fifo_23).2 = -1.
Proof.
  split; [reflexivity|].
  exact (fifobuf_unallocated_calls_fail 0
           (FifoBuf.rc_fifobuf_free Samples.fifo_23).2 7 eq_refl).
Defined.

(** A second allocation of capacity 3, the allocator answering NULL. *)
Lemma ringbuf_alloc_idempotent_witness :
  RingBuf.rc_ringbuf_alloc 0 true RingBuf.rc_ringbuf_empty 3
  = (0, RingBuf.mk_ringbuf (Some [0; 0; 0]) 3 0 1)
  ∧ RingBuf.rc_ringbuf_alloc 0 false (RingBuf.mk_ringbuf (Some [0; 0; 0]) 3 0 1) 3
    = (0, RingBuf.mk_ringbuf (Some [0; 0; 0]) 3 0 1).
Proof.
  split; [reflexivity|].
  exact (ringbuf_alloc_idempotent 0 true false RingBuf.rc_ringbuf_empty _ 3 eq_refl).
Defined.

(** A push of 4 into the fifo that holds 2 and 3. *)
Lemma push_joins_the_back_witness :
  FifoBuf.fifobuf_ok Samples.fifo_23 = true
  ∧ FifoBuf.initialized Samples.fifo_23 ≠ 0
  ∧ FifoBuf.rc_fifobuf_push Samples.fifo_23 4
    = Some (0, FifoBuf.mk_fifobuf (Some [4; 2; 3]) 3 1 3 1)
  ∧ ∃ vs b1 b2,
      FifoBuf.pop_n (Z.to_nat (FifoBuf.available Samples.fifo_23)) Samples.fifo_23
      = Some (vs, b1)
      ∧ FifoBuf.pop_n
          (Z.to_nat (FifoBuf.available (FifoBuf.mk_fifobuf (Some [4; 2; 3]) 3 1 3 1)))
          (FifoBuf.mk_fifobuf (Some [4; 2; 3]) 3 1 3 1)
        = Some (vs ++ [4], b2).
Proof.
  split; [reflexivity|]. split; [by vm_compute|]. split; [reflexivity|].
  exact (push_joins_the_back 0 Samples.fifo_23 4 _ eq_refl
           ltac:(by vm_compute) eq_refl).
Defined.

(** Pushes of 4, 5, 6 into the fifo that holds 2 and 3 and has room for
    one. *)
Lemma fifo_delivers_in_order_witness :
  FifoBuf.fifobuf_ok Samples.fifo_23 = true
  ∧ FifoBuf.initialized Samples.fifo_23 ≠ 0
  ∧ FifoBuf.size Samples.fifo_23 <= 1073741824
  ∧ ∃ old b0 b1 b2,
      FifoBuf.pop_n (Z.to_nat (FifoBuf.available Samples.fifo_23)) Samples.fifo_23
      = Some (old, b0)
      ∧ FifoBuf.push_all Samples.fifo_23 [4; 5; 6] = Some b1
      ∧ FifoBuf.rc_fifobuf_available b1
        = Z.min (FifoBuf.size Samples.fifo_23)
            (FifoBuf.available Samples.fifo_23 + Z.of_nat (length [4; 5; 6]))
      ∧ FifoBuf.pop_n (Z.to_nat (FifoBuf.rc_fifobuf_available b1)) b1
        = Some (old ++ take (Z.to_nat (FifoBuf.size Samples.fifo_23
                                       - FifoBuf.available Samples.fifo_23))
                         [4; 5; 6], b2)
      ∧ FifoBuf.rc_fifobuf_available b2 = 0.
Proof.
  split; [reflexivity|]. split; [by vm_compute|]. split; [by vm_compute|].
  exact (fifo_delivers_in_order 0 Samples.fifo_23 [4; 5; 6] eq_refl
           ltac:(by vm_compute) ltac:(by vm_compute)).
Defined.

(** The two pops on the fifo that holds 2 and 3. *)
Lemma pop_ptr_agrees_witness :
  FifoBuf.fifobuf_ok Samples.fifo_23 = true
  ∧ ((FifoBuf.rc_fifobuf_pop Samples.fifo_23 = Some (-1, None, Samples.fifo_23)
      ∧ FifoBuf.rc_fifobuf_pop_ptr Samples.fifo_23 = Some (-1, None, Samples.fifo_23))
     ∨ (∃ v b', FifoBuf.rc_fifobuf_pop Samples.fifo_23 = Some (0, Some v, b')
                ∧ FifoBuf.rc_fifobuf_pop_ptr Samples.fifo_23
                  = Some (0, Some (FifoBuf.tail Samples.fifo_23), b')
                ∧ C.load (FifoBuf.d Samples.fifo_23) (FifoBuf.tail Samples.fifo_23)
                  = Some v)).
Proof.
  split; [reflexivity|]. exact (pop_ptr_agrees Samples.fifo_23 eq_refl).
Defined.

(** A pointer pop from the full fifo followed by a push of 9. *)
Lemma pop_ptr_slot_reused_witness :
  FifoBuf.fifobuf_ok Samples.fifo_full = true
  ∧ FifoBuf.rc_fifobuf_pop_ptr Samples.fifo_full
    = Some (0, Some 0, FifoBuf.mk_fifobuf (Some [1; 2; 3]) 3 1 2 1)
  ∧ FifoBuf.rc_fifobuf_push (FifoBuf.mk_fifobuf (Some [1; 2; 3]) 3 1 2 1) 9
    = Some (0, FifoBuf.mk_fifobuf (Some [9; 2; 3]) 3 1 3 1)
  ∧ (FifoBuf.available Samples.fifo_full = FifoBuf.size Samples.fifo_full →
     C.load (FifoBuf.d (FifoBuf.mk_fifobuf (Some [9; 2; 3]) 3 1 3 1)) 0 = Some 9)
  ∧ (FifoBuf.available Samples.fifo_full ≠ FifoBuf.size Samples.fifo_full →
     C.load (FifoBuf.d (FifoBuf.mk_fifobuf (Some [9; 2; 3]) 3 1 3 1)) 0
     = C.load (FifoBuf.d Samples.fifo_full) 0).
Proof.
  split; [reflexivity|]. split; [reflexivity|]. split; [reflexivity|].
  exact (pop_ptr_slot_reused Samples.fifo_full 0 _ 9 _ eq_refl eq_refl eq_refl).
Defined.

(** The count of the fifo that holds 2 and 3. *)
Lemma available_sentinel_witness :
  FifoBuf.fifobuf_ok Samples.fifo_23 = true
  ∧ (FifoBuf.rc_fifobuf_available Samples.fifo_23 = -1
     ↔ FifoBuf.initialized Samples.fifo_23 = 0)
  ∧ (FifoBuf.initialized Samples.fifo_23 ≠ 0 →
     0 <= FifoBuf.rc_fifobuf_available Samples.fifo_23
       <= FifoBuf.size Samples.fifo_23).
Proof.
  split; [reflexivity|]. exact (available_sentinel Samples.fifo_23 eq_refl).
Defined.

(** The calls on a fresh fifo of capacity 3. *)
Lemma fifobuf_calls_defined_witness :
  FifoBuf.fifobuf_reachable 0 (FifoBuf.mk_fifobuf (Some [0; 0; 0]) 3 0 0 1)
  ∧ FifoBuf.size (FifoBuf.mk_fifobuf (Some [0; 0; 0]) 3 0 0 1) <= 1073741824
  ∧ is_Some (FifoBuf.rc_fifobuf_reset 0 (FifoBuf.mk_fifobuf (Some [0; 0; 0]) 3 0 0 1))
  ∧ is_Some (FifoBuf.rc_fifobuf_push (FifoBuf.mk_fifobuf (Some [0; 0; 0]) 3 0 0 1) 7)
  ∧ is_Some (FifoBuf.rc_fifobuf_pop (FifoBuf.mk_fifobuf (Some [0; 0; 0]) 3 0 0 1))
  ∧ is_Some (FifoBuf.rc_fifobuf_pop_ptr (FifoBuf.mk_fifobuf (Some [0; 0; 0]) 3 0 0 1))
  ∧ (FifoBuf.initialized (FifoBuf.mk_fifobuf (Some [0; 0; 0]) 3 0 0 1) ≠ 0 →
     FifoBuf.available (FifoBuf.mk_fifobuf (Some [0; 0; 0]) 3 0 0 1)
     ≠ FifoBuf.size (FifoBuf.mk_fifobuf (Some [0; 0; 0]) 3 0 0 1) →
     ∃ b', FifoBuf.rc_fifobuf_push (FifoBuf.mk_fifobuf (Some [0; 0; 0]) 3 0 0 1) 7
           = Some (0, b')).
Proof.
  assert (Hint : C.is_int 3) by (by vm_compute).
  assert (Hfifo : FifoBuf.fifobuf_reachable 0
                    (FifoBuf.mk_fifobuf (Some [0; 0; 0]) 3 0 0 1)).
  { exact (FifoBuf.fb_reach_step 0 _ _ (FifoBuf.fb_reach_empty 0)
             (FifoBuf.fb_step_alloc 0 true FifoBuf.rc_fifobuf_empty 3 Hint)). }
  split; [exact Hfifo|]. split; [by vm_compute|].
  exact (fifobuf_calls_defined 0 _ 7 Hfifo ltac:(by vm_compute)).
Defined.

(** The sample fifo of 2^30 + 1 slots satisfies the invariant. *)
Lemma fifo_huge_ok : FifoBuf.fifobuf_ok Samples.fifo_huge = true.
Proof.
  apply (fifobuf_ok_intro Samples.fifo_huge (replicate (Z.to_nat 1073741825) 0)).
  - reflexivity.
  - rewrite length_replicate. rewrite Z2Nat.id by lia. reflexivity.
  - cbn [FifoBuf.size Samples.fifo_huge]. unfold C.int_max. lia.
  - cbn [FifoBuf.size FifoBuf.tail Samples.fifo_huge]. lia.
  - cbn [FifoBuf.size FifoBuf.available Samples.fifo_huge]. lia.
  - cbn [FifoBuf.tail FifoBuf.available Samples.fifo_huge]. unfold C.int_max. lia.
Qed.

(** The next push into the sample fifo of 2^30 + 1 slots. *)
Lemma push_index_overflow_witness :
  2 <= FifoBuf.size Samples.fifo_huge <= C.int_max
  ∧ 0 <= FifoBuf.tail Samples.fifo_huge < FifoBuf.size Samples.fifo_huge
  ∧ 0 <= FifoBuf.available Samples.fifo_huge < FifoBuf.size Samples.fifo_huge
  ∧ FifoBuf.initialized Samples.fifo_huge ≠ 0
  ∧ FifoBuf.tail Samples.fifo_huge + FifoBuf.available Samples.fifo_huge
    = C.int_max + 1
  ∧ 1073741824 < FifoBuf.size Samples.fifo_huge
  ∧ C.int_rem (C.int_add (FifoBuf.tail Samples.fifo_huge)
                 (FifoBuf.available Samples.fifo_huge))
      (FifoBuf.size Samples.fifo_huge)
    = Some (FifoBuf.size Samples.fifo_huge - 2147483648)
  ∧ FifoBuf.size Samples.fifo_huge - 2147483648 < 0
  ∧ FifoBuf.rc_fifobuf_push Samples.fifo_huge 7 = None.
Proof.
  assert (H1 : 2 <= FifoBuf.size Samples.fifo_huge <= C.int_max)
    by (cbn [FifoBuf.size Samples.fifo_huge]; unfold C.int_max; lia).
  assert (H2 : 0 <= FifoBuf.tail Samples.fifo_huge < FifoBuf.size Samples.fifo_huge)
    by (cbn [FifoBuf.size FifoBuf.tail Samples.fifo_huge]; lia).
  assert (H3 : 0 <= FifoBuf.available Samples.fifo_huge
               < FifoBuf.size Samples.fifo_huge)
    by (cbn [FifoBuf.size FifoBuf.available Samples.fifo_huge]; lia).
  assert (H4 : FifoBuf.initialized Samples.fifo_huge ≠ 0)
    by (cbn [FifoBuf.initialized Samples.fifo_huge]; lia).
  assert (H5 : FifoBuf.tail Samples.fifo_huge + FifoBuf.available Samples.fifo_huge
               = C.int_max + 1) by reflexivity.
  split; [exact H1|]. split; [exact H2|]. split; [exact H3|].
  split; [exact H4|]. split; [exact H5|].
  exact (push_index_overflow Samples.fifo_huge 7 H1 H2 H3 H4 H5).
Defined.

(** A reset of the fifo that holds 2 and 3. *)
Lemma fifobuf_reset_contract_witness :
  FifoBuf.fifobuf_ok Samples.fifo_23 = true
  ∧ FifoBuf.initialized Samples.fifo_23 ≠ 0
  ∧ (let b' := FifoBuf.mk_fifobuf
                 (Some (replicate (Z.to_nat (FifoBuf.size Samples.fifo_23)) 0))
                 (FifoBuf.size Samples.fifo_23) 0 0
                 (FifoBuf.initialized Samples.fifo_23) in
     FifoBuf.rc_fifobuf_reset 0 Samples.fifo_23 = Some (0, b')
     ∧ FifoBuf.rc_fifobuf_available b' = 0
     ∧ FifoBuf.rc_fifobuf_pop b' = Some (-1, None, b')
     ∧ ∀ v, ∃ b1 b2, FifoBuf.rc_fifobuf_push b' v = Some (0, b1)
                     ∧ FifoBuf.rc_fifobuf_pop b1 = Some (0, Some v, b2)
                     ∧ FifoBuf.rc_fifobuf_available b2 = 0).
Proof.
  split; [reflexivity|]. split; [by vm_compute|].
  exact (fifobuf_reset_contract 0 Samples.fifo_23 eq_refl ltac:(by vm_compute)).
Defined.

(** A second allocation of capacity 3 on the fifo that holds 2 and 3, the
    allocator answering NULL. *)
Lemma fifobuf_alloc_idempotent_witness :
  FifoBuf.rc_fifobuf_alloc 0 true Samples.fifo_23 3 = (0, Samples.fifo_23)
  ∧ FifoBuf.rc_fifobuf_alloc 0 false Samples.fifo_23 3 = (0, Samples.fifo_23).
Proof.
  split; [reflexivity|].
  exact (fifobuf_alloc_idempotent 0 true false Samples.fifo_23 _ 3 eq_refl).
Defined.
